(** * Selective-build operator records and their merge engine

    A shallow embedding of [tools/codegen/selective_build/operator.py]:
    the two dataclasses [PyTorchModelMetadata] and [SelectiveBuildOperator]
    with their YAML (de)serialisers, and the three merge functions
    [merge_model_lists], [combine_operators] and [merge_operator_dicts].

    Python values that the functions inspect dynamically are embedded as the
    tagged union [pyobj].  A document ([Dict[str, object]]) that is only
    looked up and compared with [==] is a [gmap string pyobj]; a dictionary
    whose iteration order is read back ([mdict.values()], [lhs.items()]) is an
    insertion-ordered association list.  A raised exception is the left
    summand of [result]. *)

From Stdlib Require Import Ascii.
From stdpp Require Import base option list strings gmap.

Local Open Scope string_scope.
Local Open Scope list_scope.

(** ** Python objects and exceptions *)

#[local] Set Warnings "-register-all".

Inductive pyobj : Type :=
| PNone
| PBool (b : bool)
| PInt (z : Z)
| PStr (s : string)
| PList (l : list pyobj)
| PDict (d : gmap string pyobj).

Inductive py_exception : Type :=
| KeyError (key : string)
| AssertionError
| TypeError
| Exception (msg : string).

Definition result (A : Type) : Type := (py_exception + A)%type.

Definition raise {A} (e : py_exception) : result A := inl e.

#[global] Instance result_ret : MRet result := fun A x => inr x.
#[global] Instance result_bind : MBind result :=
  fun A B k m => match m with inl e => inl e | inr x => k x end.
#[global] Instance result_fmap : FMap result :=
  fun A B g m => match m with inl e => inl e | inr x => inr (g x) end.

(** [isinstance(o, str)] *)
Definition is_str (o : pyobj) : bool :=
  match o with PStr _ => true | _ => false end.

(** The exceptions that a deserialiser lets escape: a missing key, a failed
    [isinstance] assertion, or subscripting something that is no mapping. *)
Definition DeserializationError (e : py_exception) : Prop :=
  match e with
  | KeyError _ | AssertionError | TypeError => True
  | Exception _ => False
  end.

(** The exception [combine_operators] raises itself. *)
Definition InvariantViolation (e : py_exception) : Prop :=
  match e with
  | Exception _ => True
  | KeyError _ | AssertionError | TypeError => False
  end.

(** ** Insertion-ordered dictionaries

    [d[k] = v] keeps the slot of a key that is already there and appends a
    new key at the end; [d.values()] and [d.items()] read the slots in
    order. *)

Fixpoint dict_get {V} (k : string) (d : list (string * V)) : option V :=
  match d with
  | [] => None
  | (k', v) :: d' => if decide (k = k') then Some v else dict_get k d'
  end.

Fixpoint dict_set {V} (k : string) (v : V) (d : list (string * V))
  : list (string * V) :=
  match d with
  | [] => [(k, v)]
  | (k', v') :: d' =>
      if decide (k = k') then (k', v) :: d' else (k', v') :: dict_set k v d'
  end.

Definition dict_keys {V} (d : list (string * V)) : list string := d.*1.

Definition dict_values {V} (d : list (string * V)) : list V := d.*2.

(** A Python [dict] never holds a key twice. *)
Definition dict_wf {V} (d : list (string * V)) : Prop := NoDup (dict_keys d).

(** ** [PyTorchModelMetadata] *)

Module PyTorchModelMetadata.

Record t : Type := mk { name : string; version : option string }.

Definition from_yaml (data : gmap string pyobj) : result t :=
  match data !! "name" with
  | None => raise (KeyError "name")
  | Some (PStr name) =>
      match data !! "version" with
      | None => mret (mk name None)
      | Some (PStr ver) => mret (mk name (Some ver))
      | Some _ => raise AssertionError
      end
  | Some _ => raise AssertionError
  end.

(** [__str__], the canonical string. *)
Definition str (self : t) : string :=
  match version self with
  | None => name self
  | Some ver => name self +:+ "@" +:+ ver
  end.

Definition to_dict (self : t) : gmap string pyobj :=
  match version self with
  | None => {[ "name" := PStr (name self) ]}
  | Some ver => <[ "version" := PStr ver ]> {[ "name" := PStr (name self) ]}
  end.

(** [from_yaml(x)] on an element [x] of a list: [x['name']] raises
    [TypeError] when [x] is not a mapping. *)
Definition from_yaml_obj (x : pyobj) : result t :=
  match x with
  | PDict data => from_yaml data
  | _ => raise TypeError
  end.

End PyTorchModelMetadata.

(** ** [SelectiveBuildOperator] *)

Module SelectiveBuildOperator.

Record t : Type := mk {
  name : string;
  is_root_operator : bool;
  is_used_for_training : bool;
  include_all_overloads : bool;
  models : option (list PyTorchModelMetadata.t)
}.

(** [op_info.get(key, True)] followed by [assert isinstance(_, bool)]. *)
Definition get_flag (op_info : gmap string pyobj) (key : string) : result bool :=
  match default (PBool true) (op_info !! key) with
  | PBool b => mret b
  | _ => raise AssertionError
  end.

Definition from_yaml_dict (op_name : string) (op_info : gmap string pyobj)
  : result t :=
  is_root_operator ← get_flag op_info "is_root_operator";
  is_used_for_training ← get_flag op_info "is_used_for_training";
  include_all_overloads ← get_flag op_info "include_all_overloads";
  models ← match op_info !! "models" with
           | None => mret None
           | Some (PList models_list) =>
               Some <$> mapM PyTorchModelMetadata.from_yaml_obj models_list
           | Some _ => raise AssertionError
           end;
  mret (mk op_name is_root_operator is_used_for_training
           include_all_overloads models).

Definition from_legacy_operator_name_without_overload (name : string) : t :=
  mk name true true true None.

Definition to_dict (self : t) : gmap string pyobj :=
  let ret : gmap string pyobj :=
    <[ "include_all_overloads" := PBool (include_all_overloads self) ]>
    (<[ "is_used_for_training" := PBool (is_used_for_training self) ]>
     {[ "is_root_operator" := PBool (is_root_operator self) ]}) in
  match models self with
  | Some ms =>
      <[ "models" :=
           PList ((fun m => PDict (PyTorchModelMetadata.to_dict m)) <$> ms) ]> ret
  | None => ret
  end.

End SelectiveBuildOperator.

Abbreviation Model := PyTorchModelMetadata.t.
Abbreviation Operator := SelectiveBuildOperator.t.

#[global] Instance model_eq_dec : EqDecision Model.
Proof. solve_decision. Defined.

(** ** The merge engine *)

(** [lhs or []] *)
Definition or_empty {A} (l : option (list A)) : list A := default [] l.

(** The [for] loop of [merge_model_lists]: [mdict[str(model)] = model]. *)
Definition fill_mdict (ms : list Model) (mdict : list (string * Model))
  : list (string * Model) :=
  foldl (fun mdict model => dict_set (PyTorchModelMetadata.str model) model mdict)
        mdict ms.

Definition merge_model_lists (lhs rhs : option (list Model))
  : option (list Model) :=
  let mdict := fill_mdict (or_empty lhs ++ or_empty rhs) [] in
  if decide (0 < length mdict) then Some (dict_values mdict) else None.

Definition name_mismatch (l r : string) : string :=
  "Expected both arguments to have the same name, but got '" +:+ l +:+
  "' and '" +:+ r +:+ "' instead".

Definition combine_operators (lhs rhs : Operator) : result Operator :=
  if decide (SelectiveBuildOperator.name lhs ≠ SelectiveBuildOperator.name rhs)
  then raise (Exception (name_mismatch (SelectiveBuildOperator.name lhs)
                                       (SelectiveBuildOperator.name rhs)))
  else mret (SelectiveBuildOperator.mk
         (SelectiveBuildOperator.name lhs)
         (SelectiveBuildOperator.is_root_operator lhs
          || SelectiveBuildOperator.is_root_operator rhs)
         (SelectiveBuildOperator.is_used_for_training lhs
          || SelectiveBuildOperator.is_used_for_training rhs)
         (SelectiveBuildOperator.include_all_overloads lhs
          || SelectiveBuildOperator.include_all_overloads rhs)
         (merge_model_lists (SelectiveBuildOperator.models lhs)
                            (SelectiveBuildOperator.models rhs))).

(** The [for] loop of [merge_operator_dicts]; a [raise] leaves the loop. *)
Fixpoint merge_loop (items : list (string * Operator))
  (operators : list (string * Operator)) : result (list (string * Operator)) :=
  match items with
  | [] => mret operators
  | (op_name, op) :: rest =>
      new_op ← match dict_get op_name operators with
               | Some cur => combine_operators cur op
               | None => mret op
               end;
      merge_loop rest (dict_set op_name new_op operators)
  end.

Definition merge_operator_dicts (lhs rhs : list (string * Operator))
  : result (list (string * Operator)) :=
  merge_loop (lhs ++ rhs) [].

(** ** [strip_operator_overload_name] *)

(** [s.split(sep)] for a separator of one character: the pieces of [s]
    between the occurrences of [sep], one more than there are occurrences. *)
Fixpoint py_split (sep : ascii) (s : string) : list string :=
  match s with
  | EmptyString => [EmptyString]
  | String c s' =>
      if decide (c = sep) then EmptyString :: py_split sep s'
      else match py_split sep s' with
           | piece :: pieces => String c piece :: pieces
           | [] => [String c EmptyString]
           end
  end.

(** [op_name.split(".")[0]]; [None] stands for the [IndexError] of [[0]] on
    an empty list. *)
Definition strip_operator_overload_name (op_name : string) : option string :=
  py_split "."%char op_name !! 0%nat.

(** ** Specification-side definitions *)

(** *** Updating a slot through a binary operation

    Both loops above have the shape [d[k] = g(d.get(k), v)]: the model loop
    overwrites, the operator loop combines.  [upsert] is that step for a
    total [f], [upsert_all] the loop, [fold_key] what the loop does to the
    slot of one key, and [add_key] what one step does to the key order. *)

Definition merged {V} (f : V -> V -> V) (cur : option V) (v : V) : V :=
  match cur with Some c => f c v | None => v end.

Definition upsert {V} (f : V -> V -> V) (k : string) (v : V)
  (d : list (string * V)) : list (string * V) :=
  dict_set k (merged f (dict_get k d) v) d.

Definition upsert_all {V} (f : V -> V -> V) (items acc : list (string * V))
  : list (string * V) :=
  foldl (fun d p => upsert f p.1 p.2 d) acc items.

Definition fold_key {V} (f : V -> V -> V) (k : string)
  (items : list (string * V)) (cur : option V) : option V :=
  foldl (fun o p => if decide (p.1 = k) then Some (merged f o p.2) else o)
        cur items.

Definition add_key (ks : list string) (k : string) : list string :=
  if decide (k ∈ ks) then ks else ks ++ [k].

Definition key_is (k : string) {V} (p : string * V) : Prop := p.1 = k.
Definition key_isnt (k : string) {V} (p : string * V) : Prop := p.1 <> k.

#[global] Instance key_is_dec k {V} (p : string * V) : Decision (key_is k p).
Proof. unfold key_is. apply _. Defined.
#[global] Instance key_isnt_dec k {V} (p : string * V) : Decision (key_isnt k p).
Proof. unfold key_isnt. apply _. Defined.

(** Overwriting, the operation of the model loop. *)
Definition keep_new {V} (_ new : V) : V := new.

(** A model list as the items the model loop stores. *)
Definition keyed (ms : list Model) : list (string * Model) :=
  (fun m => (PyTorchModelMetadata.str m, m)) <$> ms.

(** The record [combine_operators] builds once the names agree. *)
Definition combined (lhs rhs : Operator) : Operator :=
  SelectiveBuildOperator.mk
    (SelectiveBuildOperator.name lhs)
    (SelectiveBuildOperator.is_root_operator lhs
     || SelectiveBuildOperator.is_root_operator rhs)
    (SelectiveBuildOperator.is_used_for_training lhs
     || SelectiveBuildOperator.is_used_for_training rhs)
    (SelectiveBuildOperator.include_all_overloads lhs
     || SelectiveBuildOperator.include_all_overloads rhs)
    (merge_model_lists (SelectiveBuildOperator.models lhs)
                       (SelectiveBuildOperator.models rhs)).

(** *** The merge of two consumer lists, in the words of the specification *)

Definition same_str (m m' : Model) : Prop :=
  PyTorchModelMetadata.str m' = PyTorchModelMetadata.str m.
Definition other_str (m m' : Model) : Prop :=
  PyTorchModelMetadata.str m' <> PyTorchModelMetadata.str m.

#[global] Instance same_str_dec m m' : Decision (same_str m m').
Proof. unfold same_str. apply _. Defined.
#[global] Instance other_str_dec m m' : Decision (other_str m m').
Proof. unfold other_str. apply _. Defined.

(** Absent stands for the empty list ... *)
Definition present {A} (l : option (list A)) : list A :=
  match l with Some xs => xs | None => [] end.

(** ... and an empty union is returned as absent. *)
Definition absent_if_empty {A} (l : list A) : option (list A) :=
  match l with [] => None | _ :: _ => Some l end.

(** Deduplication by canonical string in which the entry met first is kept
    and every later entry with the same canonical string is discarded. *)
Fixpoint dedup_keep_first (ms : list Model) : list Model :=
  match ms with
  | [] => []
  | m :: ms' => m :: filter (other_str m) (dedup_keep_first ms')
  end.

(** Deduplication by canonical string in which a canonical string keeps the
    position of its first entry and holds the entry met last. *)
Fixpoint dedup_keep_last (ms : list Model) : list Model :=
  match ms with
  | [] => []
  | m :: ms' =>
      default m (last (filter (same_str m) ms'))
      :: filter (other_str m) (dedup_keep_last ms')
  end.

Definition merge_keep_first (lhs rhs : option (list Model))
  : option (list Model) :=
  absent_if_empty (dedup_keep_first (present lhs ++ present rhs)).

Definition merge_keep_last (lhs rhs : option (list Model))
  : option (list Model) :=
  absent_if_empty (dedup_keep_last (present lhs ++ present rhs)).

(** *** Document shapes *)

Definition model_keys : gset string := {[ "name"; "version" ]}.

Definition operator_keys : gset string :=
  {[ "is_root_operator"; "is_used_for_training"; "include_all_overloads";
     "models" ]}.

(** A ConsumerMetadata document: keys among [name] and [version], a string
    under [name], and a string under [version] if that key is there. *)
Definition model_doc_shape (d : gmap string pyobj) : bool :=
  bool_decide (dom d ⊆ model_keys)
  && match d !! "name" with Some (PStr _) => true | _ => false end
  && match d !! "version" with None | Some (PStr _) => true | Some _ => false end.

Definition model_obj_shape (x : pyobj) : bool :=
  match x with PDict d => model_doc_shape d | _ => false end.

Definition flag_shape (d : gmap string pyobj) (key : string) : bool :=
  match d !! key with None | Some (PBool _) => true | Some _ => false end.

(** An OperatorRecord document: keys among the three flags and [models], a
    boolean under every flag that is there, and a list of ConsumerMetadata
    documents under [models] if that key is there. *)
Definition operator_doc_shape (d : gmap string pyobj) : bool :=
  bool_decide (dom d ⊆ operator_keys)
  && flag_shape d "is_root_operator"
  && flag_shape d "is_used_for_training"
  && flag_shape d "include_all_overloads"
  && match d !! "models" with
     | None => true
     | Some (PList l) => forallb model_obj_shape l
     | Some _ => false
     end.

Definition has_all_flags (d : gmap string pyobj) : bool :=
  bool_decide (is_Some (d !! "is_root_operator"))
  && bool_decide (is_Some (d !! "is_used_for_training"))
  && bool_decide (is_Some (d !! "include_all_overloads")).

(** The document with the default [True] written under a flag it omits. *)
Definition with_default_flag (key : string) (d : gmap string pyobj)
  : gmap string pyobj :=
  match d !! key with Some _ => d | None => <[ key := PBool true ]> d end.

Definition with_default_flags (d : gmap string pyobj) : gmap string pyobj :=
  with_default_flag "include_all_overloads"
    (with_default_flag "is_used_for_training"
       (with_default_flag "is_root_operator" d)).

(** The two kinds of document; an operator document comes with the name
    it is stored under. *)
Inductive doc_kind : Type :=
| ConsumerMetadataDoc
| OperatorRecordDoc (op_name : string).

Definition doc_shape (kind : doc_kind) (d : gmap string pyobj) : bool :=
  match kind with
  | ConsumerMetadataDoc => model_doc_shape d
  | OperatorRecordDoc _ => operator_doc_shape d
  end.

(** The document names every field its record always serialises. *)
Definition doc_complete (kind : doc_kind) (d : gmap string pyobj) : bool :=
  match kind with
  | ConsumerMetadataDoc => true
  | OperatorRecordDoc _ => has_all_flags d
  end.

(** [to_dict(from_yaml(d))], respectively [to_dict(from_yaml_dict(n, d))]. *)
Definition round_trip (kind : doc_kind) (d : gmap string pyobj)
  : result (gmap string pyobj) :=
  match kind with
  | ConsumerMetadataDoc =>
      PyTorchModelMetadata.to_dict <$> PyTorchModelMetadata.from_yaml d
  | OperatorRecordDoc op_name =>
      SelectiveBuildOperator.to_dict
        <$> SelectiveBuildOperator.from_yaml_dict op_name d
  end.

(** The key [name] is missing or holds no string, or the key [version] is
    there and holds no string. *)
Definition ill_formed_model_doc (data : gmap string pyobj) : Prop :=
  data !! "name" = None
  \/ (exists o, data !! "name" = Some o /\ is_str o = false)
  \/ (exists o, data !! "version" = Some o /\ is_str o = false).

(** The field names of a kind of document. *)
Definition doc_keys (kind : doc_kind) : gset string :=
  match kind with
  | ConsumerMetadataDoc => model_keys
  | OperatorRecordDoc _ => operator_keys
  end.

(** *** Strings *)

(** The character [c] occurs in [s]. *)
Fixpoint occurs (c : ascii) (s : string) : bool :=
  match s with
  | EmptyString => false
  | String c' s' => bool_decide (c' = c) || occurs c s'
  end.

(** *** Ill-formed operator documents *)

(** The flag [key] is there and holds no boolean. *)
Definition ill_typed_flag (d : gmap string pyobj) (key : string) : Prop :=
  exists o, d !! key = Some o /\ forall b, o <> PBool b.

(** An element of a [models] list that [from_yaml] rejects: no mapping, or
    an ill-formed ConsumerMetadata document. *)
Definition ill_formed_model_obj (x : pyobj) : Prop :=
  match x with
  | PDict data => ill_formed_model_doc data
  | _ => True
  end.

Definition ill_formed_operator_doc (d : gmap string pyobj) : Prop :=
  ill_typed_flag d "is_root_operator"
  \/ ill_typed_flag d "is_used_for_training"
  \/ ill_typed_flag d "include_all_overloads"
  \/ (exists o, d !! "models" = Some o /\ forall l, o <> PList l)
  \/ (exists l x, d !! "models" = Some (PList l) /\ x ∈ l /\ ill_formed_model_obj x).

(** *** Registries *)

(** Every record of the registry is stored under its own name. *)
Definition named_by_key (d : list (string * Operator)) : Prop :=
  Forall (fun p => SelectiveBuildOperator.name p.2 = p.1) d.

(** Every key that the registries [X] and [Y] share holds, in both, a record
    whose name is that key; records under the other keys are not looked at. *)
Definition shared_keys_named (X Y : list (string * Operator)) : Prop :=
  Forall (fun p => match dict_get p.1 Y with
                   | Some b => SelectiveBuildOperator.name p.2 = p.1 /\
                               SelectiveBuildOperator.name b = p.1
                   | None => True
                   end) X.

(** Records stored under one key carry one name. *)
Definition same_key_same_name (items : list (string * Operator)) : Prop :=
  forall k a b, (k, a) ∈ items -> (k, b) ∈ items ->
    SelectiveBuildOperator.name a = SelectiveBuildOperator.name b.

(** Two operator records that differ at most in the order of their models
    and in which entry stands for a canonical string. *)
Definition same_but_models_order (x y : Operator) : Prop :=
  SelectiveBuildOperator.name x = SelectiveBuildOperator.name y /\
  SelectiveBuildOperator.is_root_operator x
  = SelectiveBuildOperator.is_root_operator y /\
  SelectiveBuildOperator.is_used_for_training x
  = SelectiveBuildOperator.is_used_for_training y /\
  SelectiveBuildOperator.include_all_overloads x
  = SelectiveBuildOperator.include_all_overloads y /\
  PyTorchModelMetadata.str <$> present (SelectiveBuildOperator.models x)
  ≡ₚ PyTorchModelMetadata.str <$> present (SelectiveBuildOperator.models y).

(** *** Sample values *)

(** Two different consumers with the one canonical string ["a@b"]. *)
Definition consumer_plain : Model := PyTorchModelMetadata.mk "a@b" None.
Definition consumer_versioned : Model := PyTorchModelMetadata.mk "a" (Some "b").

Definition consumer_m1 : Model := PyTorchModelMetadata.mk "m" (Some "1").

Definition op_x_plain : Operator :=
  SelectiveBuildOperator.mk "x" false false false None.
Definition op_x_root : Operator :=
  SelectiveBuildOperator.mk "x" true false false None.
Definition op_y_plain : Operator :=
  SelectiveBuildOperator.mk "y" false false false None.

Definition registry_A : list (string * Operator) :=
  [("aten::add", SelectiveBuildOperator.mk "aten::add" false true false
                   (Some [consumer_plain; consumer_m1]));
   ("aten::mul", SelectiveBuildOperator.mk "aten::mul" true false false None)].
Definition registry_B : list (string * Operator) :=
  [("aten::sub", SelectiveBuildOperator.mk "aten::sub" false false false (Some []));
   ("aten::add", SelectiveBuildOperator.mk "aten::add" true false false
                   (Some [consumer_versioned]))].
Definition registry_C : list (string * Operator) :=
  [("aten::add", SelectiveBuildOperator.mk "aten::add" false false true
                   (Some [consumer_m1; consumer_plain]));
   ("aten::div", SelectiveBuildOperator.mk "aten::div" false false false None)].

Definition doc_consumer_m1 : gmap string pyobj :=
  <[ "version" := PStr "1" ]> {[ "name" := PStr "m" ]}.

Definition doc_operator_full : gmap string pyobj :=
  <[ "models" := PList [PDict doc_consumer_m1; PDict {[ "name" := PStr "n" ]}] ]>
  (<[ "include_all_overloads" := PBool false ]>
   (<[ "is_used_for_training" := PBool true ]>
    {[ "is_root_operator" := PBool false ]})).

(** The merges of the sample registries, as the code computes them. *)
Definition registry_AB : list (string * Operator) :=
  Eval vm_compute in
    match merge_operator_dicts registry_A registry_B with
    | inr operators => operators
    | inl _ => []
    end.

(** The record [registry_A] stores under ["aten::mul"]. *)
Definition op_mul_root : Operator :=
  SelectiveBuildOperator.mk "aten::mul" true false false None.

(** A registry that shares no key with [registry_A]; its record does not
    carry the name it is stored under. *)
Definition registry_div : list (string * Operator) :=
  [("aten::div", SelectiveBuildOperator.mk "aten::div.out" false false false None)].

(** A registry that stores under ["aten::add"] a record of another name. *)
Definition registry_misnamed : list (string * Operator) :=
  [("aten::add", SelectiveBuildOperator.mk "aten::add.out" true true true None)].

(** * Properties *)

(** ** Insertion-ordered dictionaries *)

Section ordered_dict.
Context {V : Type}.
Implicit Types (d acc : list (string * V)) (k : string) (v : V).

Lemma dict_get_set k' k v d :
  dict_get k' (dict_set k v d) = if decide (k' = k) then Some v else dict_get k' d.
Proof.
  induction d as [|[k0 v0] d IH]; simpl.
  - by destruct (decide (k' = k)).
  - destruct (decide (k = k0)) as [->|]; simpl.
    + by destruct (decide (k' = k0)).
    + rewrite IH. destruct (decide (k' = k0)) as [->|]; [|done].
      by rewrite decide_False by done.
Qed.

Lemma dict_get_None k d : dict_get k d = None <-> k ∉ dict_keys d.
Proof.
  unfold dict_keys. induction d as [|[k0 v0] d IH]; simpl.
  - split; [intros _; apply not_elem_of_nil | done].
  - rewrite not_elem_of_cons. destruct (decide (k = k0)) as [->|Hne].
    + split; [done|]. by intros [? _].
    + rewrite IH. split; [done|]. by intros [_ ?].
Qed.

Lemma dict_get_elem k v d : dict_get k d = Some v -> (k, v) ∈ d.
Proof.
  induction d as [|[k0 v0] d IH]; simpl; [done|].
  case_decide; intros E.
  - simplify_eq. left.
  - right. auto.
Qed.

Lemma dict_elem_get k v d : dict_wf d -> (k, v) ∈ d -> dict_get k d = Some v.
Proof.
  unfold dict_wf, dict_keys.
  induction d as [|[k0 v0] d IH]; [by intros _ ?%elem_of_nil|].
  rewrite fmap_cons, NoDup_cons, elem_of_cons. cbn [dict_get fst].
  intros [Hnin Hnd] [[= -> ->]|Hin].
  - by rewrite decide_True.
  - rewrite decide_False; [by apply IH|].
    intros ->. apply Hnin. apply list_elem_of_fmap. by exists (k0, v).
Qed.

Lemma dict_get_Some_key k v d : dict_get k d = Some v -> k ∈ dict_keys d.
Proof.
  intros Hget. destruct (decide (k ∈ dict_keys d)) as [|Hnin]; [done|].
  apply dict_get_None in Hnin. congruence.
Qed.

Lemma dict_set_fresh k v d : k ∉ dict_keys d -> dict_set k v d = d ++ [(k, v)].
Proof.
  unfold dict_keys. induction d as [|[k0 v0] d IH]; simpl; [done|].
  rewrite not_elem_of_cons. intros [Hne Hnin].
  case_decide; [done|]. by rewrite IH.
Qed.

Lemma dict_keys_set k v d : dict_keys (dict_set k v d) = add_key (dict_keys d) k.
Proof.
  unfold dict_keys, add_key. induction d as [|[k0 v0] d IH].
  - destruct (decide (k ∈ (([] : list (string * V)).*1))) as [Hin|_]; [|done].
    by apply elem_of_nil in Hin.
  - cbn [dict_set]. destruct (decide (k = k0)) as [->|Hne].
    + rewrite decide_True; [done|]. cbn. left.
    + rewrite !fmap_cons, IH. cbn [fst].
      destruct (decide (k ∈ d.*1)) as [Hin|Hnin].
      * rewrite decide_True; [done|]. by right.
      * rewrite decide_False; [done|]. rewrite elem_of_cons. tauto.
Qed.

Lemma add_key_old ks k : k ∈ ks -> add_key ks k = ks.
Proof. intros Hin. unfold add_key. by rewrite decide_True. Qed.

Lemma add_key_new ks k : k ∉ ks -> add_key ks k = ks ++ [k].
Proof. intros Hnin. unfold add_key. by rewrite decide_False. Qed.

Lemma add_key_NoDup ks k : NoDup ks -> NoDup (add_key ks k).
Proof.
  unfold add_key. intros Hks. case_decide; [done|].
  apply NoDup_app. split_and!; [done| |apply NoDup_singleton].
  intros x Hx ->%list_elem_of_singleton. done.
Qed.

Lemma add_key_elem ks k x : x ∈ add_key ks k <-> x ∈ ks \/ x = k.
Proof.
  unfold add_key. destruct (decide (k ∈ ks)) as [Hin|Hnin].
  - split; [tauto|]. by intros [?| ->].
  - by rewrite elem_of_app, list_elem_of_singleton.
Qed.

Lemma dict_set_wf k v d : dict_wf d -> dict_wf (dict_set k v d).
Proof. unfold dict_wf. rewrite dict_keys_set. apply add_key_NoDup. Qed.

(** Two dictionaries with the same key order and the same lookups are equal. *)
Lemma dict_ext d1 d2 :
  dict_wf d1 -> dict_keys d1 = dict_keys d2 ->
  (forall k, dict_get k d1 = dict_get k d2) -> d1 = d2.
Proof.
  unfold dict_wf, dict_keys.
  revert d2. induction d1 as [|[k1 v1] d1 IH]; intros [|[k2 v2] d2]; simpl;
    try done.
  intros Hnd Hk Hg. inversion Hnd as [|? ? Hnin Hnd']; subst.
  injection Hk as -> Hk.
  pose proof (Hg k2) as H2. rewrite !decide_True in H2 by done.
  injection H2 as ->. f_equal.
  apply IH; [done..|].
  intros k. specialize (Hg k). destruct (decide (k = k2)) as [->|]; [|done].
  transitivity (@None V).
  - by apply dict_get_None.
  - symmetry. apply dict_get_None. rewrite Hk in Hnin. exact Hnin.
Qed.

End ordered_dict.

(** ** The update loop *)

Section update_loop.
Context {V : Type} (f : V -> V -> V).
Implicit Types (d acc items : list (string * V)) (k : string) (v : V).

Lemma dict_get_upsert k' k v d :
  dict_get k' (upsert f k v d) =
  if decide (k' = k) then Some (merged f (dict_get k d) v) else dict_get k' d.
Proof. unfold upsert. apply dict_get_set. Qed.

Lemma dict_keys_upsert k v d :
  dict_keys (upsert f k v d) = add_key (dict_keys d) k.
Proof. unfold upsert. apply dict_keys_set. Qed.

Lemma upsert_all_app items1 items2 acc :
  upsert_all f (items1 ++ items2) acc =
  upsert_all f items2 (upsert_all f items1 acc).
Proof. unfold upsert_all. apply foldl_app. Qed.

Lemma upsert_all_cons k v items acc :
  upsert_all f ((k, v) :: items) acc = upsert_all f items (upsert f k v acc).
Proof. done. Qed.

Lemma fold_key_cons k k0 v0 items cur :
  fold_key f k ((k0, v0) :: items) cur =
  fold_key f k items (if decide (k0 = k) then Some (merged f cur v0) else cur).
Proof. done. Qed.

Lemma dict_keys_upsert_all items acc :
  dict_keys (upsert_all f items acc) = foldl add_key (dict_keys acc) items.*1.
Proof.
  revert acc. induction items as [|[k v] items IH]; intros acc; [done|].
  cbn. rewrite <- (dict_keys_upsert k v). apply IH.
Qed.

Lemma dict_get_upsert_all k items acc :
  dict_get k (upsert_all f items acc) = fold_key f k items (dict_get k acc).
Proof.
  revert acc. induction items as [|[k0 v0] items IH]; intros acc; [done|].
  rewrite upsert_all_cons, fold_key_cons, IH, dict_get_upsert. f_equal.
  destruct (decide (k = k0)) as [->|Hne].
  - by rewrite decide_True.
  - by rewrite decide_False.
Qed.

Lemma upsert_all_wf items acc : dict_wf acc -> dict_wf (upsert_all f items acc).
Proof.
  unfold dict_wf. rewrite dict_keys_upsert_all.
  generalize (dict_keys acc) as ks.
  induction items.*1 as [|k ks' IH]; intros ks Hks; [done|].
  cbn. by apply IH, add_key_NoDup.
Qed.

(** Items with pairwise distinct keys, none of them in the dictionary yet,
    are stored as they come. *)
Lemma upsert_all_fresh d acc :
  dict_wf (acc ++ d) -> upsert_all f d acc = acc ++ d.
Proof.
  unfold dict_wf, dict_keys.
  revert acc. induction d as [|[k v] d IH]; intros acc Hwf.
  - by rewrite app_nil_r.
  - rewrite upsert_all_cons.
    assert (k ∉ dict_keys acc) as Hnin.
    { rewrite fmap_app, fmap_cons in Hwf. apply NoDup_app in Hwf as (_ & Hd & _).
      intros Hin. apply (Hd k Hin). left. }
    unfold upsert. apply dict_get_None in Hnin as Hget. rewrite Hget. cbn.
    rewrite dict_set_fresh by done.
    rewrite IH; rewrite <- app_assoc; done.
Qed.

Lemma fold_key_absent k d cur : k ∉ dict_keys d -> fold_key f k d cur = cur.
Proof.
  unfold dict_keys. revert cur. induction d as [|[k0 v0] d IH]; intros cur; [done|].
  rewrite fmap_cons, not_elem_of_cons. intros [Hne Hnin].
  rewrite fold_key_cons, decide_False by done. by apply IH.
Qed.

Lemma fold_key_wf k d cur :
  dict_wf d ->
  fold_key f k d cur =
  match dict_get k d with Some v => Some (merged f cur v) | None => cur end.
Proof.
  unfold dict_wf, dict_keys.
  revert cur. induction d as [|[k0 v0] d IH]; intros cur Hwf; [done|].
  rewrite fmap_cons in Hwf. apply NoDup_cons in Hwf as [Hnin Hwf].
  rewrite fold_key_cons. cbn [dict_get fst].
  destruct (decide (k0 = k)) as [->|Hne].
  - rewrite decide_True by done. by apply fold_key_absent.
  - rewrite decide_False by done. by apply IH.
Qed.

Lemma add_keys_elem ks seen x :
  x ∈ foldl add_key seen ks <-> x ∈ seen \/ x ∈ ks.
Proof.
  revert seen. induction ks as [|k ks IH]; intros seen; cbn.
  - rewrite elem_of_nil. tauto.
  - rewrite IH, add_key_elem, elem_of_cons. tauto.
Qed.

Lemma add_keys_absorb ks seen0 seen :
  foldl add_key seen (foldl add_key seen0 ks) =
  foldl add_key (foldl add_key seen seen0) ks.
Proof.
  revert seen0. induction ks as [|k ks IH]; intros seen0; [done|].
  cbn. rewrite IH. f_equal. unfold add_key at 2 3.
  destruct (decide (k ∈ seen0)) as [Hin|Hnin].
  - rewrite decide_True; [done|]. apply add_keys_elem. by right.
  - by rewrite foldl_app.
Qed.

(** The loop seen from the first item: its key takes the first slot, the
    slot holds the fold of all values stored under that key, and the other
    keys are handled as if the key had never been there. *)

Lemma filter_dict_set_same k v d :
  filter (key_isnt k) (dict_set k v d) = filter (key_isnt k) d.
Proof.
  induction d as [|[k0 v0] d IH]; cbn [dict_set].
  - rewrite filter_cons_False; [done|]. unfold key_isnt. cbn. tauto.
  - destruct (decide (k = k0)) as [->|Hne].
    + rewrite !filter_cons_False; [done|..]; unfold key_isnt; cbn; tauto.
    + rewrite !(filter_cons_True _ (k0, _)) by (unfold key_isnt; cbn; congruence).
      by rewrite IH.
Qed.

Lemma filter_dict_set_other k k' v d :
  k' <> k ->
  filter (key_isnt k) (dict_set k' v d) = dict_set k' v (filter (key_isnt k) d).
Proof.
  intros Hne. induction d as [|[k0 v0] d IH]; cbn [dict_set].
  - by rewrite filter_cons_True, filter_nil.
  - destruct (decide (k' = k0)) as [->|Hne0].
    + rewrite !filter_cons_True by done. cbn [dict_set].
      by rewrite decide_True.
    + destruct (decide (k0 = k)) as [->|Hne1].
      * rewrite !filter_cons_False; [done|..]; unfold key_isnt; cbn; tauto.
      * rewrite !filter_cons_True by done. cbn [dict_set].
        by rewrite decide_False, IH.
Qed.

Lemma dict_get_filter_other k k' d :
  k' <> k -> dict_get k' (filter (key_isnt k) d) = dict_get k' d.
Proof.
  intros Hne. induction d as [|[k0 v0] d IH]; [done|]. cbn [dict_get].
  destruct (decide (k0 = k)) as [->|Hne1].
  - rewrite filter_cons_False by (unfold key_isnt; cbn; tauto).
    by rewrite decide_False.
  - rewrite filter_cons_True by done. cbn [dict_get]. by rewrite IH.
Qed.

Lemma upsert_all_filter k items acc :
  filter (key_isnt k) (upsert_all f items acc) =
  upsert_all f (filter (key_isnt k) items) (filter (key_isnt k) acc).
Proof.
  revert acc. induction items as [|[k0 v0] items IH]; intros acc; [done|].
  rewrite upsert_all_cons, IH. unfold upsert.
  destruct (decide (k0 = k)) as [->|Hne].
  - rewrite (filter_cons_False _ (k, v0)) by (unfold key_isnt; cbn; tauto).
    by rewrite filter_dict_set_same.
  - rewrite (filter_cons_True _ (k0, v0)) by done.
    rewrite upsert_all_cons. unfold upsert.
    by rewrite filter_dict_set_other, dict_get_filter_other.
Qed.

Lemma upsert_all_head k v items acc :
  upsert_all f items ((k, v) :: acc) =
  (k, foldl f v (filter (key_is k) items).*2)
  :: upsert_all f (filter (key_isnt k) items) acc.
Proof.
  revert v acc. induction items as [|[k0 v0] items IH]; intros v acc; [done|].
  rewrite upsert_all_cons. unfold upsert at 1. cbn [dict_get dict_set].
  destruct (decide (k0 = k)) as [->|Hne].
  - rewrite IH. rewrite filter_cons_True by done.
    rewrite filter_cons_False by (unfold key_isnt; cbn; tauto). done.
  - rewrite IH. rewrite filter_cons_False by done.
    rewrite filter_cons_True by done. by rewrite upsert_all_cons.
Qed.

Lemma upsert_all_first k v items :
  upsert_all f ((k, v) :: items) [] =
  (k, foldl f v (filter (key_is k) items).*2)
  :: filter (key_isnt k) (upsert_all f items []).
Proof.
  rewrite upsert_all_cons. unfold upsert. cbn [dict_get dict_set merged].
  by rewrite upsert_all_head, upsert_all_filter.
Qed.

Hypothesis f_assoc : forall a b c, f (f a b) c = f a (f b c).

Lemma merged_assoc cur a b :
  merged f (Some (merged f cur a)) b = merged f cur (f a b).
Proof. destruct cur; cbn; [apply f_assoc | done]. Qed.

(** With an associative operation the slot of a key is the incoming value
    combined with what the items alone produce. *)
Lemma fold_key_merged k items cur :
  fold_key f k items cur =
  match fold_key f k items None with
  | Some v => Some (merged f cur v)
  | None => cur
  end.
Proof.
  revert cur. induction items as [|[k0 v0] items IH]; intros cur; [done|].
  rewrite !fold_key_cons. destruct (decide (k0 = k)) as [->|Hne]; [|apply IH].
  cbn [merged]. rewrite IH. rewrite (IH (Some v0)).
  destruct (fold_key f k items None) as [w|]; [|done].
  by rewrite merged_assoc.
Qed.

(** Running the loop on the dictionary that a loop has produced from [items]
    is running it on [items]. *)
Lemma upsert_all_absorb_r items acc :
  dict_wf acc ->
  upsert_all f (upsert_all f items []) acc = upsert_all f items acc.
Proof.
  intros Hwf. apply dict_ext.
  - by apply upsert_all_wf.
  - rewrite !dict_keys_upsert_all.
    change ((upsert_all f items []).*1) with (dict_keys (upsert_all f items [])).
    rewrite dict_keys_upsert_all. apply add_keys_absorb.
  - intros k. rewrite !dict_get_upsert_all.
    rewrite fold_key_wf by (apply upsert_all_wf, NoDup_nil_2).
    rewrite dict_get_upsert_all. symmetry. apply fold_key_merged.
Qed.

Lemma upsert_all_absorb_l items1 items2 :
  upsert_all f (upsert_all f items1 [] ++ items2) [] =
  upsert_all f (items1 ++ items2) [].
Proof.
  rewrite !upsert_all_app. f_equal.
  apply (upsert_all_fresh _ []), upsert_all_wf, NoDup_nil_2.
Qed.

Lemma upsert_all_assoc items1 items2 items3 :
  upsert_all f (upsert_all f (items1 ++ items2) [] ++ items3) [] =
  upsert_all f (items1 ++ upsert_all f (items2 ++ items3) []) [].
Proof.
  rewrite upsert_all_absorb_l.
  rewrite (upsert_all_app items1 (upsert_all f _ [])).
  rewrite upsert_all_absorb_r by (apply upsert_all_wf, NoDup_nil_2).
  by rewrite <- upsert_all_app, app_assoc.
Qed.

End update_loop.

(** ** [merge_model_lists] *)

Section model_lists.
Implicit Types (m : Model) (ms : list Model) (lhs rhs : option (list Model)).

Lemma keep_new_assoc (a b c : Model) :
  keep_new (keep_new a b) c = keep_new a (keep_new b c).
Proof. done. Qed.

Lemma foldl_keep_new m ms : foldl keep_new m ms = default m (last ms).
Proof.
  revert m. induction ms as [|m' ms IH]; intros m; [done|].
  cbn [foldl]. rewrite IH, last_cons. unfold keep_new. by destruct (last ms).
Qed.

Lemma fill_mdict_upsert_all ms mdict :
  fill_mdict ms mdict = upsert_all keep_new (keyed ms) mdict.
Proof.
  revert mdict. induction ms as [|m ms IH]; intros mdict; [done|].
  change (keyed (m :: ms)) with ((PyTorchModelMetadata.str m, m) :: keyed ms).
  rewrite upsert_all_cons, <- IH. unfold upsert. by destruct (dict_get _ mdict).
Qed.

Lemma or_empty_present {A} (l : option (list A)) : or_empty l = present l.
Proof. by destruct l. Qed.

Lemma dict_values_keyed ms : dict_values (keyed ms) = ms.
Proof.
  unfold dict_values, keyed. rewrite <- list_fmap_compose.
  induction ms as [|m ms IH]; [done|]. rewrite fmap_cons. by f_equal.
Qed.

Lemma dict_keys_keyed ms : dict_keys (keyed ms) = PyTorchModelMetadata.str <$> ms.
Proof.
  unfold dict_keys, keyed. rewrite <- list_fmap_compose.
  induction ms as [|m ms IH]; [done|]. rewrite !fmap_cons. by f_equal.
Qed.

Lemma keyed_app ms1 ms2 : keyed (ms1 ++ ms2) = keyed ms1 ++ keyed ms2.
Proof. unfold keyed. apply fmap_app. Qed.

Lemma keyed_cons m ms : keyed (m :: ms) = (PyTorchModelMetadata.str m, m) :: keyed ms.
Proof. done. Qed.

Lemma filter_keyed_other m ms :
  filter (key_isnt (PyTorchModelMetadata.str m)) (keyed ms) =
  keyed (filter (other_str m) ms).
Proof.
  induction ms as [|m' ms IH]; [done|]. rewrite keyed_cons.
  destruct (decide (other_str m m')) as [Ho|Ho].
  - rewrite (filter_cons_True _ (_, m')) by exact Ho.
    rewrite (filter_cons_True _ m') by exact Ho.
    by rewrite keyed_cons, IH.
  - rewrite (filter_cons_False _ (_, m')) by exact Ho.
    by rewrite (filter_cons_False _ m') by exact Ho.
Qed.

Lemma filter_keyed_same m ms :
  (filter (key_is (PyTorchModelMetadata.str m)) (keyed ms)).*2 =
  filter (same_str m) ms.
Proof.
  induction ms as [|m' ms IH]; [done|]. rewrite keyed_cons.
  destruct (decide (same_str m m')) as [Ho|Ho].
  - rewrite (filter_cons_True _ (_, m')) by exact Ho.
    rewrite (filter_cons_True _ m') by exact Ho.
    by rewrite fmap_cons, IH.
  - rewrite (filter_cons_False _ (_, m')) by exact Ho.
    by rewrite (filter_cons_False _ m') by exact Ho.
Qed.

Lemma str_last_same m ms :
  PyTorchModelMetadata.str (default m (last (filter (same_str m) ms))) =
  PyTorchModelMetadata.str m.
Proof.
  destruct (last _) as [x|] eqn:E; [|done].
  apply last_Some_elem_of, list_elem_of_filter in E as [E _]. exact E.
Qed.

(** The dictionary the loop builds from scratch, slot by slot. *)
Lemma fill_mdict_dedup ms : fill_mdict ms [] = keyed (dedup_keep_last ms).
Proof.
  rewrite fill_mdict_upsert_all.
  induction ms as [|m ms IH]; [done|].
  rewrite keyed_cons, upsert_all_first, IH, filter_keyed_other, filter_keyed_same.
  rewrite foldl_keep_new. cbn [dedup_keep_last]. by rewrite keyed_cons, str_last_same.
Qed.

Lemma merge_model_lists_unfold lhs rhs :
  merge_model_lists lhs rhs =
  absent_if_empty (dict_values (fill_mdict (present lhs ++ present rhs) [])).
Proof.
  unfold merge_model_lists. rewrite !or_empty_present.
  destruct (fill_mdict _ []) as [|p d]; cbn [length].
  - by rewrite decide_False by lia.
  - by rewrite decide_True by lia.
Qed.

Lemma merge_model_lists_dedup lhs rhs :
  merge_model_lists lhs rhs = merge_keep_last lhs rhs.
Proof.
  rewrite merge_model_lists_unfold, fill_mdict_dedup, dict_values_keyed. done.
Qed.

Lemma present_absent_if_empty {A} (l : list A) : present (absent_if_empty l) = l.
Proof. by destruct l. Qed.

Lemma dedup_keep_last_nil ms : dedup_keep_last ms = [] <-> ms = [].
Proof. by destruct ms. Qed.

Lemma str_dedup_keep_last ms :
  PyTorchModelMetadata.str <$> dedup_keep_last ms =
  foldl add_key [] (PyTorchModelMetadata.str <$> ms).
Proof.
  rewrite <- !dict_keys_keyed, <- fill_mdict_dedup, fill_mdict_upsert_all.
  by rewrite dict_keys_upsert_all.
Qed.

Lemma dedup_keep_last_NoDup ms :
  NoDup (PyTorchModelMetadata.str <$> dedup_keep_last ms).
Proof.
  rewrite <- dict_keys_keyed, <- fill_mdict_dedup, fill_mdict_upsert_all.
  apply upsert_all_wf, NoDup_nil_2.
Qed.

Lemma add_keys_length ks seen :
  length (foldl add_key seen ks) <= length seen + length ks.
Proof.
  revert seen. induction ks as [|k ks IH]; intros seen; cbn; [lia|].
  etrans; [apply IH|].
  destruct (decide (k ∈ seen)) as [Hin|Hnin].
  - rewrite add_key_old by done. lia.
  - rewrite add_key_new, length_app by done. cbn. lia.
Qed.

Lemma add_keys_length_lt ks seen :
  (exists x, x ∈ seen /\ x ∈ ks) \/ ~ NoDup ks ->
  length (foldl add_key seen ks) < length seen + length ks.
Proof.
  revert seen. induction ks as [|k ks IH]; intros seen Hdup.
  - destruct Hdup as [(x & _ & Hx)|Hnd]; [by apply elem_of_nil in Hx|].
    destruct Hnd. apply NoDup_nil_2.
  - cbn. destruct (decide (k ∈ seen)) as [Hin|Hnin].
    + rewrite add_key_old by done.
      pose proof (add_keys_length ks seen). lia.
    + rewrite add_key_new by done.
      assert (length (foldl add_key (seen ++ [k]) ks)
              < length (seen ++ [k]) + length ks) as Hlt.
      { apply IH. destruct Hdup as [(x & Hx1 & Hx2)|Hnd].
        - apply elem_of_cons in Hx2 as [->|Hx2]; [done|].
          left. exists x. split; [|done]. apply elem_of_app. by left.
        - destruct (decide (k ∈ ks)) as [Hk|Hk].
          + left. exists k. split; [|done]. apply elem_of_app. right. left.
          + right. intros Hks. apply Hnd. by apply NoDup_cons. }
      rewrite length_app in Hlt. cbn in Hlt. lia.
Qed.

Lemma keyed_values_fill_mdict ms :
  keyed (dict_values (fill_mdict ms [])) = fill_mdict ms [].
Proof. by rewrite fill_mdict_dedup, dict_values_keyed. Qed.

(** The merge is associative on the nose, positions and entries alike. *)
Lemma merge_model_lists_assoc a b c :
  merge_model_lists (merge_model_lists a b) c =
  merge_model_lists a (merge_model_lists b c).
Proof.
  rewrite !(merge_model_lists_unfold _ c), !(merge_model_lists_unfold a).
  rewrite !present_absent_if_empty. do 2 f_equal.
  rewrite (fill_mdict_upsert_all (dict_values _ ++ _)).
  rewrite (fill_mdict_upsert_all (_ ++ dict_values _)).
  rewrite !keyed_app, !keyed_values_fill_mdict.
  rewrite !fill_mdict_upsert_all, !keyed_app.
  apply upsert_all_assoc, keep_new_assoc.
Qed.

End model_lists.

(** *** The examples of the specification *)

Example str_without_version :
  PyTorchModelMetadata.str (PyTorchModelMetadata.mk "foo" None) = "foo".
Proof. reflexivity. Qed.

Example str_with_version :
  PyTorchModelMetadata.str (PyTorchModelMetadata.mk "foo" (Some "v1")) = "foo@v1".
Proof. reflexivity. Qed.

Example merge_equal_entries :
  merge_model_lists (Some [consumer_m1]) (Some [consumer_m1]) = Some [consumer_m1].
Proof. vm_compute. reflexivity. Qed.

Example merge_left_then_right :
  merge_model_lists (Some [PyTorchModelMetadata.mk "a" None])
                    (Some [PyTorchModelMetadata.mk "b" None])
  = Some [PyTorchModelMetadata.mk "a" None; PyTorchModelMetadata.mk "b" None].
Proof. vm_compute. reflexivity. Qed.

Example merge_collision_keeps_slot :
  merge_model_lists (Some [consumer_plain; consumer_m1]) (Some [consumer_versioned])
  = Some [consumer_versioned; consumer_m1].
Proof. vm_compute. reflexivity. Qed.

(** Where entries with equal canonical strings are equal entries, keeping
    the first and keeping the last are the same thing. *)
Lemma dedup_keep_last_first (ms : list Model) :
  (forall m m', m ∈ ms -> m' ∈ ms ->
     PyTorchModelMetadata.str m = PyTorchModelMetadata.str m' -> m = m') ->
  dedup_keep_last ms = dedup_keep_first ms.
Proof.
  induction ms as [|m ms IH]; intros Hinj; [done|].
  cbn [dedup_keep_last dedup_keep_first]. f_equal.
  - destruct (last _) as [x|] eqn:E; [|done]. cbn.
    apply last_Some_elem_of, list_elem_of_filter in E as [Hstr Hin].
    symmetry. apply Hinj; [left | by right | by symmetry].
  - rewrite IH; [done|]. intros x y Hx Hy. apply Hinj; by right.
Qed.

(** *** Claims about [merge_model_lists] *)

(** C1, as stated, fails: with [lhs = [{name: "a@b"}]] and
    [rhs = [{name: "a", version: "b"}]] both entries have the canonical
    string ["a@b"]; keeping the entry met first would return the entry of
    [lhs], while [merge_model_lists] returns the entry of [rhs]. *)
Lemma merge_model_lists_first_kept_fails :
  PyTorchModelMetadata.str consumer_plain
  = PyTorchModelMetadata.str consumer_versioned /\
  merge_keep_first (Some [consumer_plain]) (Some [consumer_versioned])
  = Some [consumer_plain] /\
  merge_model_lists (Some [consumer_plain]) (Some [consumer_versioned])
  = Some [consumer_versioned] /\
  merge_model_lists (Some [consumer_plain]) (Some [consumer_versioned])
  <> merge_keep_first (Some [consumer_plain]) (Some [consumer_versioned]).
Proof. vm_compute. repeat split. discriminate. Qed.

(** C1, amended: for every pair of inputs [lhs], [rhs] (each an optional
    list), [merge_model_lists] returns the concatenation of [lhs] then [rhs]
    deduplicated by canonical string, where a canonical string keeps the
    position of its first entry and, on a collision of two entries with equal
    canonical string, holds the entry met last when scanning [lhs] then
    [rhs]; the earlier duplicate is discarded, and an empty result is
    returned as absent. *)
Theorem merge_model_lists_last_kept (lhs rhs : option (list Model)) :
  merge_model_lists lhs rhs = merge_keep_last lhs rhs.
Proof.
  unfold merge_keep_last.
  rewrite merge_model_lists_unfold.
  rewrite fill_mdict_dedup.
  by rewrite dict_values_keyed.
Qed.

(** C7: [merge_model_lists] treats an absent input as an empty list, and
    returns absent, never an empty list, when the deduplicated union is empty,
    which is when both inputs are absent or empty; in particular the merge of
    two absent inputs is absent. *)
Theorem merge_model_lists_absent lhs rhs :
  merge_model_lists None rhs = merge_model_lists (Some []) rhs /\
  merge_model_lists lhs None = merge_model_lists lhs (Some []) /\
  (dedup_keep_last (present lhs ++ present rhs) = []
   <-> present lhs ++ present rhs = []) /\
  (merge_model_lists lhs rhs = None
   <-> dedup_keep_last (present lhs ++ present rhs) = []) /\
  merge_model_lists lhs rhs <> Some [] /\
  merge_model_lists None None = None.
Proof.
  split_and!; try done.
  - apply dedup_keep_last_nil.
  - rewrite merge_model_lists_dedup. unfold merge_keep_last.
    by destruct (dedup_keep_last _).
  - rewrite merge_model_lists_dedup. unfold merge_keep_last.
    by destruct (dedup_keep_last _).
Qed.

(** C9: a list returned by [merge_model_lists] is non-empty and holds no two
    entries with equal canonical strings; duplicates inside a single input
    are removed too, so whenever the inputs hold two entries with one
    canonical string the result is strictly shorter than their
    concatenation, also when the other side is absent. *)
Theorem merge_model_lists_no_duplicates lhs rhs ms :
  merge_model_lists lhs rhs = Some ms ->
  ms <> [] /\
  NoDup (PyTorchModelMetadata.str <$> ms) /\
  (~ NoDup (PyTorchModelMetadata.str <$> (present lhs ++ present rhs)) ->
   length ms < length (present lhs ++ present rhs)).
Proof.
  rewrite merge_model_lists_dedup. unfold merge_keep_last.
  destruct (dedup_keep_last _) as [|m ms'] eqn:E; [done|].
  intros [= <-]. rewrite <- E. split_and!.
  - by rewrite E.
  - apply dedup_keep_last_NoDup.
  - intros Hdup.
    rewrite <- (length_fmap PyTorchModelMetadata.str (dedup_keep_last _)).
    rewrite <- (length_fmap PyTorchModelMetadata.str (_ ++ _)).
    rewrite str_dedup_keep_last.
    apply (add_keys_length_lt _ []). by right.
Qed.

Lemma merge_model_lists_no_duplicates_witness :
  merge_model_lists (Some [consumer_m1; consumer_m1]) None = Some [consumer_m1] /\
  ([consumer_m1] <> [] /\
   NoDup (PyTorchModelMetadata.str <$> [consumer_m1]) /\
   (~ NoDup (PyTorchModelMetadata.str
             <$> (present (Some [consumer_m1; consumer_m1]) ++ present None)) ->
    length [consumer_m1]
    < length (present (Some [consumer_m1; consumer_m1]) ++ present None))).
Proof.
  split.
  - vm_compute. reflexivity.
  - apply (merge_model_lists_no_duplicates
             (Some [consumer_m1; consumer_m1]) None [consumer_m1]).
    vm_compute. reflexivity.
Defined.

(** ** [combine_operators] and [merge_operator_dicts] *)

Section registries.
Implicit Types (op cur lhs rhs : Operator) (items acc : list (string * Operator)).

Lemma combine_operators_same_name lhs rhs :
  SelectiveBuildOperator.name lhs = SelectiveBuildOperator.name rhs ->
  combine_operators lhs rhs = inr (combined lhs rhs).
Proof.
  intros Hname. unfold combine_operators. by rewrite decide_False by tauto.
Qed.

Lemma combined_assoc a b c :
  combined (combined a b) c = combined a (combined b c).
Proof.
  unfold combined. cbn. by rewrite !orb_assoc, merge_model_lists_assoc.
Qed.

Lemma merge_loop_cons k op items acc :
  merge_loop ((k, op) :: items) acc =
  new_op ← match dict_get k acc with
           | Some cur => combine_operators cur op
           | None => mret op
           end;
  merge_loop items (dict_set k new_op acc).
Proof. done. Qed.

Lemma Forall_dict_set {V} (P : string * V -> Prop) k v (d : list (string * V)) :
  P (k, v) -> Forall P d -> Forall P (dict_set k v d).
Proof.
  intros Hkv. induction 1 as [|[k0 v0] d Hp Hd IH]; cbn [dict_set].
  - by constructor.
  - destruct (decide (k = k0)) as [->|Hne]; by constructor.
Qed.

(** As long as records stored under one key carry one name ([nm k] for the
    key [k]), the loop never raises and is the update loop of [combined]. *)
Lemma merge_loop_named (nm : string -> string) items acc :
  Forall (fun p => SelectiveBuildOperator.name p.2 = nm p.1) items ->
  Forall (fun p => SelectiveBuildOperator.name p.2 = nm p.1) acc ->
  merge_loop items acc = inr (upsert_all combined items acc) /\
  Forall (fun p => SelectiveBuildOperator.name p.2 = nm p.1)
         (upsert_all combined items acc).
Proof.
  intros Hitems. revert acc.
  induction Hitems as [|[k op] items Hop Hitems IH]; intros acc Hacc; [done|].
  rewrite merge_loop_cons, upsert_all_cons. unfold upsert. cbn in Hop.
  destruct (dict_get k acc) as [cur|] eqn:Hget; cbn [merged].
  - apply dict_get_elem in Hget as Hin.
    rewrite Forall_forall in Hacc. specialize (Hacc _ Hin) as Hcur. cbn in Hcur.
    rewrite combine_operators_same_name by congruence.
    apply IH, Forall_dict_set; [done|]. by apply Forall_forall.
  - apply IH, Forall_dict_set; done.
Qed.

(** Items with pairwise distinct keys, none of them stored yet, are stored
    as they come: [combine_operators] is not called. *)
Lemma merge_loop_fresh items acc :
  dict_wf (acc ++ items) -> merge_loop items acc = inr (acc ++ items).
Proof.
  unfold dict_wf, dict_keys.
  revert acc. induction items as [|[k op] items IH]; intros acc Hwf.
  - by rewrite app_nil_r.
  - rewrite merge_loop_cons.
    assert (k ∉ dict_keys acc) as Hnin.
    { rewrite fmap_app, fmap_cons in Hwf. apply NoDup_app in Hwf as (_ & Hd & _).
      intros Hin. apply (Hd k Hin). left. }
    apply dict_get_None in Hnin as Hget. rewrite Hget. cbn.
    rewrite dict_set_fresh by done.
    rewrite IH; rewrite <- app_assoc; done.
Qed.

Lemma merge_operator_dicts_named (nm : string -> string)
  (lhs rhs : list (string * Operator)) :
  Forall (fun p => SelectiveBuildOperator.name p.2 = nm p.1) lhs ->
  Forall (fun p => SelectiveBuildOperator.name p.2 = nm p.1) rhs ->
  merge_operator_dicts lhs rhs = inr (upsert_all combined (lhs ++ rhs) []) /\
  Forall (fun p => SelectiveBuildOperator.name p.2 = nm p.1)
         (upsert_all combined (lhs ++ rhs) []).
Proof.
  intros Hl Hr. apply merge_loop_named; [|done]. by apply Forall_app.
Qed.

(** Associativity for registries whose records under one key carry one
    name; the two nestings raise nothing and agree on the nose. *)
Lemma merge_operator_dicts_assoc_named (nm : string -> string)
  (A B C : list (string * Operator)) :
  Forall (fun p => SelectiveBuildOperator.name p.2 = nm p.1) A ->
  Forall (fun p => SelectiveBuildOperator.name p.2 = nm p.1) B ->
  Forall (fun p => SelectiveBuildOperator.name p.2 = nm p.1) C ->
  exists AB BC ABC,
    merge_operator_dicts A B = inr AB /\
    merge_operator_dicts AB C = inr ABC /\
    merge_operator_dicts B C = inr BC /\
    merge_operator_dicts A BC = inr ABC.
Proof.
  intros HA HB HC.
  destruct (merge_operator_dicts_named nm A B HA HB) as [EAB HAB].
  destruct (merge_operator_dicts_named nm B C HB HC) as [EBC HBC].
  destruct (merge_operator_dicts_named nm _ C HAB HC) as [EABC _].
  destruct (merge_operator_dicts_named nm A _ HA HBC) as [EABC' _].
  eexists _, _, _. split_and!; [done..|].
  rewrite EABC'. f_equal. symmetry.
  apply upsert_all_assoc, combined_assoc.
Qed.

Lemma shared_keys_named_elem (X Y : list (string * Operator)) k a b :
  shared_keys_named X Y -> (k, a) ∈ X -> dict_get k Y = Some b ->
  SelectiveBuildOperator.name a = k /\ SelectiveBuildOperator.name b = k.
Proof.
  unfold shared_keys_named. rewrite Forall_forall.
  intros Hshared Hin Hget. specialize (Hshared _ Hin). cbn in Hshared.
  by rewrite Hget in Hshared.
Qed.

(** In dictionaries whose shared keys hold records named by the key, records
    under one key carry one name. *)
Lemma shared_keys_same_name (A B C : list (string * Operator)) :
  dict_wf A -> dict_wf B -> dict_wf C ->
  shared_keys_named A B -> shared_keys_named A C -> shared_keys_named B C ->
  same_key_same_name (A ++ B ++ C).
Proof.
  intros HA HB HC HAB HAC HBC k a b.
  assert (forall X, dict_wf X -> (k, a) ∈ X -> (k, b) ∈ X ->
            SelectiveBuildOperator.name a = SelectiveBuildOperator.name b)
    as Hsame.
  { intros X HX Ha Hb. apply (dict_elem_get _ _ _ HX) in Ha, Hb. congruence. }
  assert (forall X Y, dict_wf Y -> shared_keys_named X Y ->
            (k, a) ∈ X -> (k, b) ∈ Y ->
            SelectiveBuildOperator.name a = SelectiveBuildOperator.name b)
    as Hxy.
  { intros X Y HY Hshared Ha Hb. apply (dict_elem_get _ _ _ HY) in Hb.
    destruct (shared_keys_named_elem X Y k a b Hshared Ha Hb). congruence. }
  assert (forall X Y, dict_wf Y -> shared_keys_named X Y ->
            (k, b) ∈ X -> (k, a) ∈ Y ->
            SelectiveBuildOperator.name a = SelectiveBuildOperator.name b)
    as Hyx.
  { intros X Y HY Hshared Hb Ha. apply (dict_elem_get _ _ _ HY) in Ha.
    destruct (shared_keys_named_elem X Y k b a Hshared Hb Ha). congruence. }
  rewrite !elem_of_app. intros [Ha|[Ha|Ha]] [Hb|[Hb|Hb]]; eauto.
Qed.

(** Records under one key carrying one name, every record has the name of
    the first record stored under its key. *)
Lemma same_key_same_name_named items :
  same_key_same_name items ->
  Forall (fun p => SelectiveBuildOperator.name p.2 =
                   match dict_get p.1 items with
                   | Some r => SelectiveBuildOperator.name r
                   | None => p.1
                   end) items.
Proof.
  intros Hsame. apply Forall_forall. intros [k a] Hin. cbn.
  destruct (dict_get k items) as [r|] eqn:Hget.
  - apply dict_get_elem in Hget. by apply (Hsame k).
  - apply dict_get_None in Hget. destruct Hget.
    apply list_elem_of_fmap. by exists (k, a).
Qed.

End registries.

(** *** Claims about [combine_operators] and [merge_operator_dicts] *)

Example combine_operators_or :
  combine_operators op_x_plain op_x_root = inr op_x_root.
Proof. vm_compute. reflexivity. Qed.

Example combine_operators_x_y :
  combine_operators op_x_plain op_y_plain
  = inl (Exception
      "Expected both arguments to have the same name, but got 'x' and 'y' instead").
Proof. vm_compute. reflexivity. Qed.

(** C3: for two records with equal names [combine_operators] returns a
    record whose name is that shared name, whose three flags are each the
    logical OR of the two sides' flags, and whose models are
    [merge_model_lists] of the two sides' models. *)
Theorem combine_operators_fields (lhs rhs : Operator) :
  SelectiveBuildOperator.name lhs = SelectiveBuildOperator.name rhs ->
  exists op,
    combine_operators lhs rhs = inr op /\
    SelectiveBuildOperator.name op = SelectiveBuildOperator.name lhs /\
    SelectiveBuildOperator.name op = SelectiveBuildOperator.name rhs /\
    SelectiveBuildOperator.is_root_operator op =
      SelectiveBuildOperator.is_root_operator lhs
      || SelectiveBuildOperator.is_root_operator rhs /\
    SelectiveBuildOperator.is_used_for_training op =
      SelectiveBuildOperator.is_used_for_training lhs
      || SelectiveBuildOperator.is_used_for_training rhs /\
    SelectiveBuildOperator.include_all_overloads op =
      SelectiveBuildOperator.include_all_overloads lhs
      || SelectiveBuildOperator.include_all_overloads rhs /\
    SelectiveBuildOperator.models op =
      merge_model_lists (SelectiveBuildOperator.models lhs)
                        (SelectiveBuildOperator.models rhs).
Proof.
  intros Hname. exists (combined lhs rhs).
  split; [by apply combine_operators_same_name|]. by split_and!.
Qed.

Lemma combine_operators_fields_witness :
  SelectiveBuildOperator.name op_x_plain = SelectiveBuildOperator.name op_x_root /\
  exists op,
    combine_operators op_x_plain op_x_root = inr op /\
    SelectiveBuildOperator.name op = SelectiveBuildOperator.name op_x_plain /\
    SelectiveBuildOperator.name op = SelectiveBuildOperator.name op_x_root /\
    SelectiveBuildOperator.is_root_operator op =
      SelectiveBuildOperator.is_root_operator op_x_plain
      || SelectiveBuildOperator.is_root_operator op_x_root /\
    SelectiveBuildOperator.is_used_for_training op =
      SelectiveBuildOperator.is_used_for_training op_x_plain
      || SelectiveBuildOperator.is_used_for_training op_x_root /\
    SelectiveBuildOperator.include_all_overloads op =
      SelectiveBuildOperator.include_all_overloads op_x_plain
      || SelectiveBuildOperator.include_all_overloads op_x_root /\
    SelectiveBuildOperator.models op =
      merge_model_lists (SelectiveBuildOperator.models op_x_plain)
                        (SelectiveBuildOperator.models op_x_root).
Proof.
  split; [reflexivity|].
  apply (combine_operators_fields op_x_plain op_x_root). reflexivity.
Defined.

(** C4: for two records whose names differ [combine_operators] raises the
    exception whose message quotes the two names, left then right, and
    returns no record. *)
Theorem combine_operators_name_mismatch (lhs rhs : Operator) :
  SelectiveBuildOperator.name lhs <> SelectiveBuildOperator.name rhs ->
  exists e,
    combine_operators lhs rhs = inl e /\
    InvariantViolation e /\
    e = Exception
          ("Expected both arguments to have the same name, but got '"
           +:+ SelectiveBuildOperator.name lhs +:+ "' and '"
           +:+ SelectiveBuildOperator.name rhs +:+ "' instead") /\
    forall op, combine_operators lhs rhs <> inr op.
Proof.
  intros Hname. unfold combine_operators. rewrite decide_True by done.
  eexists. split_and!; [done..|]. intros op. discriminate.
Qed.

Lemma combine_operators_name_mismatch_witness :
  SelectiveBuildOperator.name op_x_plain <> SelectiveBuildOperator.name op_y_plain /\
  exists e,
    combine_operators op_x_plain op_y_plain = inl e /\
    InvariantViolation e /\
    e = Exception
          ("Expected both arguments to have the same name, but got '"
           +:+ SelectiveBuildOperator.name op_x_plain +:+ "' and '"
           +:+ SelectiveBuildOperator.name op_y_plain +:+ "' instead") /\
    forall op, combine_operators op_x_plain op_y_plain <> inr op.
Proof.
  split; [vm_compute; discriminate|].
  apply (combine_operators_name_mismatch op_x_plain op_y_plain).
  vm_compute. discriminate.
Defined.

(** C10: if in both registries every record is stored under its own name,
    [merge_operator_dicts] raises nothing, and in its result every key maps
    to a record whose name is that key. *)
Theorem merge_operator_dicts_keeps_names (lhs rhs : list (string * Operator)) :
  named_by_key lhs -> named_by_key rhs ->
  exists operators,
    merge_operator_dicts lhs rhs = inr operators /\
    named_by_key operators /\
    forall k op, dict_get k operators = Some op -> SelectiveBuildOperator.name op = k.
Proof.
  intros Hl Hr.
  destruct (merge_operator_dicts_named id lhs rhs Hl Hr) as [E Hnamed].
  eexists. split_and!; [done..|].
  intros k op Hget%dict_get_elem.
  rewrite Forall_forall in Hnamed. apply (Hnamed _ Hget).
Qed.

Lemma merge_operator_dicts_keeps_names_witness :
  named_by_key registry_A /\ named_by_key registry_B /\
  exists operators,
    merge_operator_dicts registry_A registry_B = inr operators /\
    named_by_key operators /\
    forall k op, dict_get k operators = Some op -> SelectiveBuildOperator.name op = k.
Proof.
  assert (named_by_key registry_A) as HA by (repeat constructor).
  assert (named_by_key registry_B) as HB by (repeat constructor).
  split_and!; [done..|].
  exact (merge_operator_dicts_keeps_names registry_A registry_B HA HB).
Defined.

(** C5: for registries [A], [B], [C] in which every key shared by two of
    them holds, in both, a record whose name is that key, both nestings of
    [merge_operator_dicts] succeed and return equal registries: the same
    keys and under each key the same record, the models lists included (the
    two results agree even in the order of their keys and of their models).
    Records under a key of one registry only may carry any name. *)
Theorem merge_operator_dicts_assoc (A B C : list (string * Operator)) :
  dict_wf A -> dict_wf B -> dict_wf C ->
  shared_keys_named A B -> shared_keys_named A C -> shared_keys_named B C ->
  exists AB BC L R,
    merge_operator_dicts A B = inr AB /\
    merge_operator_dicts AB C = inr L /\
    merge_operator_dicts B C = inr BC /\
    merge_operator_dicts A BC = inr R /\
    L = R /\
    dict_keys L = dict_keys R /\
    forall k, dict_get k L = dict_get k R.
Proof.
  intros HA HB HC HAB HAC HBC.
  pose proof (same_key_same_name_named _
                (shared_keys_same_name A B C HA HB HC HAB HAC HBC)) as Hnamed.
  apply Forall_app in Hnamed as [HnA Hnamed].
  apply Forall_app in Hnamed as [HnB HnC].
  destruct (merge_operator_dicts_assoc_named
              (fun k => match dict_get k (A ++ B ++ C) with
                        | Some r => SelectiveBuildOperator.name r
                        | None => k
                        end) A B C HnA HnB HnC)
    as (AB & BC & ABC & E1 & E2 & E3 & E4).
  exists AB, BC, ABC, ABC. by split_and!.
Qed.

Lemma merge_operator_dicts_assoc_witness :
  dict_wf registry_div /\ dict_wf registry_A /\ dict_wf registry_B /\
  shared_keys_named registry_div registry_A /\
  shared_keys_named registry_div registry_B /\
  shared_keys_named registry_A registry_B /\
  exists AB BC L R,
    merge_operator_dicts registry_div registry_A = inr AB /\
    merge_operator_dicts AB registry_B = inr L /\
    merge_operator_dicts registry_A registry_B = inr BC /\
    merge_operator_dicts registry_div BC = inr R /\
    L = R /\
    dict_keys L = dict_keys R /\
    forall k, dict_get k L = dict_get k R.
Proof.
  assert (dict_wf registry_div) as HD.
  { unfold dict_wf. apply (bool_decide_unpack _). vm_compute. exact I. }
  assert (dict_wf registry_A) as HA.
  { unfold dict_wf. apply (bool_decide_unpack _). vm_compute. exact I. }
  assert (dict_wf registry_B) as HB.
  { unfold dict_wf. apply (bool_decide_unpack _). vm_compute. exact I. }
  assert (shared_keys_named registry_div registry_A) as HDA.
  { repeat constructor. }
  assert (shared_keys_named registry_div registry_B) as HDB.
  { repeat constructor. }
  assert (shared_keys_named registry_A registry_B) as HAB.
  { repeat constructor. }
  do 6 (split; [done|]).
  exact (merge_operator_dicts_assoc registry_div registry_A registry_B
           HD HA HB HDA HDB HAB).
Defined.

(** C6: merging a registry [R] with the empty registry returns [R]: the
    same keys, under each key the record of [R] unchanged. *)
Theorem merge_operator_dicts_empty (R : list (string * Operator)) :
  dict_wf R ->
  merge_operator_dicts R [] = inr R /\
  forall operators, merge_operator_dicts R [] = inr operators ->
    dict_keys operators = dict_keys R /\
    forall k, dict_get k operators = dict_get k R.
Proof.
  intros Hwf.
  assert (merge_operator_dicts R [] = inr R) as E.
  { unfold merge_operator_dicts. rewrite app_nil_r.
    by apply (merge_loop_fresh R []). }
  split; [done|]. intros operators. rewrite E. by intros [= <-].
Qed.

Lemma merge_operator_dicts_empty_witness :
  dict_wf registry_A /\
  merge_operator_dicts registry_A [] = inr registry_A /\
  forall operators, merge_operator_dicts registry_A [] = inr operators ->
    dict_keys operators = dict_keys registry_A /\
    forall k, dict_get k operators = dict_get k registry_A.
Proof.
  assert (dict_wf registry_A) as HA.
  { unfold dict_wf. apply (bool_decide_unpack _). vm_compute. exact I. }
  split; [done|].
  exact (merge_operator_dicts_empty registry_A HA).
Defined.

(** ** Documents *)

Section documents.
Implicit Types (d data : gmap string pyobj) (key : string).

Lemma model_doc_shape_inv d :
  model_doc_shape d = true ->
  dom d ⊆ model_keys /\
  exists s, d !! "name" = Some (PStr s) /\
    (d !! "version" = None \/ exists v, d !! "version" = Some (PStr v)).
Proof.
  unfold model_doc_shape. rewrite !andb_true_iff, bool_decide_eq_true.
  intros [[Hdom Hname] Hver]. split; [done|].
  destruct (d !! "name") as [[]|]; try done.
  eexists. split; [done|].
  destruct (d !! "version") as [[]|]; try done; eauto.
Qed.

Lemma lookup_outside d (keys : gset string) i :
  dom d ⊆ keys -> i ∉ keys -> d !! i = None.
Proof. intros Hdom Hi. apply not_elem_of_dom. set_solver. Qed.

Lemma model_round_trip d :
  model_doc_shape d = true ->
  PyTorchModelMetadata.to_dict <$> PyTorchModelMetadata.from_yaml d = inr d.
Proof.
  intros (Hdom & s & Hname & Hver)%model_doc_shape_inv.
  unfold PyTorchModelMetadata.from_yaml. rewrite Hname.
  assert (forall i, i <> "name" -> i <> "version" -> d !! i = None) as Hother.
  { intros i H1 H2. apply (lookup_outside d model_keys); [done|].
    unfold model_keys. rewrite elem_of_union, !elem_of_singleton. tauto. }
  destruct Hver as [Hver|[v Hver]]; rewrite Hver; cbn; f_equal;
    apply map_eq; intros i; unfold PyTorchModelMetadata.to_dict; cbn.
  - destruct (decide (i = "name")) as [->|H1].
    + by rewrite lookup_singleton_eq.
    + rewrite lookup_singleton_ne by done.
      destruct (decide (i = "version")) as [->|H2]; [done|].
      symmetry. by apply Hother.
  - destruct (decide (i = "version")) as [->|H2].
    + by rewrite lookup_insert_eq.
    + rewrite lookup_insert_ne by done.
      destruct (decide (i = "name")) as [->|H1].
      * by rewrite lookup_singleton_eq.
      * rewrite lookup_singleton_ne by done. symmetry. by apply Hother.
Qed.

Lemma get_flag_shape d key :
  flag_shape d key = true ->
  exists b, SelectiveBuildOperator.get_flag d key = inr b /\
    default (PBool true) (d !! key) = PBool b.
Proof.
  unfold flag_shape, SelectiveBuildOperator.get_flag.
  destruct (d !! key) as [[]|]; try done; intros _; by eexists.
Qed.

Lemma models_round_trip (l : list pyobj) :
  forallb model_obj_shape l = true ->
  exists ms, mapM PyTorchModelMetadata.from_yaml_obj l = inr ms /\
    (fun m => PDict (PyTorchModelMetadata.to_dict m)) <$> ms = l.
Proof.
  induction l as [|x l IH]; cbn [forallb].
  - intros _. by exists [].
  - rewrite andb_true_iff. intros [Hx Hl].
    destruct (IH Hl) as (ms & Hms & Hback).
    destruct x as [| | | | |d]; try done. cbn in Hx.
    pose proof (model_round_trip d Hx) as Hd.
    cbn [mapM PyTorchModelMetadata.from_yaml_obj].
    destruct (PyTorchModelMetadata.from_yaml d) as [e|m]; [done|].
    injection Hd as Hd. rewrite Hms. exists (m :: ms). split; [done|].
    by rewrite fmap_cons, Hd, Hback.
Qed.

Lemma lookup_with_default_flag_eq key d :
  with_default_flag key d !! key = Some (default (PBool true) (d !! key)).
Proof.
  unfold with_default_flag. destruct (d !! key) as [o|] eqn:E.
  - by rewrite E.
  - by rewrite lookup_insert_eq.
Qed.

Lemma lookup_with_default_flag_ne key d i :
  i <> key -> with_default_flag key d !! i = d !! i.
Proof.
  intros Hne. unfold with_default_flag. destruct (d !! key) as [o|]; [done|].
  by rewrite lookup_insert_ne.
Qed.

Lemma with_default_flag_id key d : is_Some (d !! key) -> with_default_flag key d = d.
Proof. unfold with_default_flag. by intros [o ->]. Qed.

Lemma with_default_flags_id d : has_all_flags d = true -> with_default_flags d = d.
Proof.
  unfold has_all_flags, with_default_flags.
  rewrite !andb_true_iff, !bool_decide_eq_true. intros [[H1 H2] H3].
  by rewrite (with_default_flag_id "is_root_operator"),
    (with_default_flag_id "is_used_for_training"),
    (with_default_flag_id "include_all_overloads").
Qed.

(** Serialising the record read from an operator document gives the
    document back, with [True] written under every flag it omits. *)
Lemma operator_round_trip_defaults op_name d :
  operator_doc_shape d = true ->
  SelectiveBuildOperator.to_dict
    <$> SelectiveBuildOperator.from_yaml_dict op_name d
  = inr (with_default_flags d).
Proof.
  unfold operator_doc_shape. rewrite !andb_true_iff, bool_decide_eq_true.
  intros [[[[Hdom H1] H2] H3] Hmodels].
  apply get_flag_shape in H1 as (b1 & G1 & D1).
  apply get_flag_shape in H2 as (b2 & G2 & D2).
  apply get_flag_shape in H3 as (b3 & G3 & D3).
  assert (forall i, i <> "is_root_operator" -> i <> "is_used_for_training" ->
            i <> "include_all_overloads" -> i <> "models" -> d !! i = None)
    as Hother.
  { intros i ? ? ? ?. apply (lookup_outside d operator_keys); [done|].
    unfold operator_keys. rewrite !elem_of_union, !elem_of_singleton. tauto. }
  assert (exists models : option (list Model),
    match d !! "models" with
    | None => mret None
    | Some (PList models_list) =>
        Some <$> mapM PyTorchModelMetadata.from_yaml_obj models_list
    | Some _ => raise AssertionError
    end = inr models /\
    d !! "models" =
      (fun ms => PList ((fun m => PDict (PyTorchModelMetadata.to_dict m)) <$> ms))
        <$> models) as (models & Gm & Dm).
  { destruct (d !! "models") as [o|]; [|by exists None].
    destruct o as [| | | |l|]; try done.
    destruct (models_round_trip l Hmodels) as (ms & -> & Hback).
    exists (Some ms). cbn. by rewrite Hback. }
  unfold SelectiveBuildOperator.from_yaml_dict.
  rewrite G1, G2, G3. cbn. rewrite Gm. cbn. f_equal.
  apply map_eq. intros i. unfold with_default_flags.
  unfold SelectiveBuildOperator.to_dict. cbn.
  destruct (decide (i = "include_all_overloads")) as [->|N3].
  { rewrite lookup_with_default_flag_eq, !lookup_with_default_flag_ne by done.
    rewrite D3. destruct models; cbn.
    - rewrite lookup_insert_ne by done. by rewrite lookup_insert_eq.
    - by rewrite lookup_insert_eq. }
  rewrite lookup_with_default_flag_ne by done.
  destruct (decide (i = "is_used_for_training")) as [->|N2].
  { rewrite lookup_with_default_flag_eq, !lookup_with_default_flag_ne by done.
    rewrite D2. destruct models; cbn.
    - rewrite !lookup_insert_ne by done. by rewrite lookup_insert_eq.
    - rewrite lookup_insert_ne by done. by rewrite lookup_insert_eq. }
  rewrite lookup_with_default_flag_ne by done.
  destruct (decide (i = "is_root_operator")) as [->|N1].
  { rewrite lookup_with_default_flag_eq.
    rewrite D1. destruct models; cbn.
    - rewrite !lookup_insert_ne by done. by rewrite lookup_singleton_eq.
    - rewrite !lookup_insert_ne by done. by rewrite lookup_singleton_eq. }
  rewrite lookup_with_default_flag_ne by done.
  destruct (decide (i = "models")) as [->|Nm].
  { rewrite Dm. destruct models; cbn.
    - by rewrite lookup_insert_eq.
    - rewrite !lookup_insert_ne by done. by rewrite lookup_singleton_ne. }
  rewrite Hother by done. destruct models; cbn.
  - rewrite !lookup_insert_ne by done. by rewrite lookup_singleton_ne.
  - rewrite !lookup_insert_ne by done. by rewrite lookup_singleton_ne.
Qed.

End documents.

(** *** Claims about documents *)

(** C8: [from_yaml] fails, with a deserialisation error, exactly when the
    key [name] is missing or holds no string, or the key [version] is there
    and holds no string; otherwise it returns the record with the string
    under [name] and the string under [version], and its version is absent
    exactly when the key [version] is missing. *)
Theorem from_yaml_fails_exactly (data : gmap string pyobj) :
  match PyTorchModelMetadata.from_yaml data with
  | inl e => DeserializationError e /\ ill_formed_model_doc data
  | inr m =>
      ~ ill_formed_model_doc data /\
      data !! "name" = Some (PStr (PyTorchModelMetadata.name m)) /\
      data !! "version" = PStr <$> PyTorchModelMetadata.version m /\
      (PyTorchModelMetadata.version m = None <-> data !! "version" = None)
  end.
Proof.
  unfold PyTorchModelMetadata.from_yaml, ill_formed_model_doc.
  destruct (data !! "name") as [o|] eqn:Hname.
  - destruct o; try (split; [exact I|]; right; left; by eexists).
    destruct (data !! "version") as [o|] eqn:Hver.
    + destruct o; try (split; [exact I|]; right; right; by eexists).
      cbn. split_and!; [|done..].
      intros [|[(o & [= <-] & ?)|(o & [= <-] & ?)]]; done.
    + cbn. split_and!; [|done..].
      intros [|[(o & [= <-] & ?)|(o & ? & ?)]]; done.
  - split; [exact I|]. by left.
Qed.

(** C2, as stated, fails: the empty document has the OperatorRecord shape
    (every flag is optional), and reading it and serialising the record gives
    a document with the three flags, which is not the empty document. *)
Lemma round_trip_omitted_flags_fails :
  doc_shape (OperatorRecordDoc "aten::add") ∅ = true /\
  round_trip (OperatorRecordDoc "aten::add") ∅ <> inr ∅.
Proof. split; [by vm_compute|]. vm_compute. discriminate. Qed.

(** C2, amended: for every valid document [d] of the ConsumerMetadata shape,
    and for every valid document [d] of the OperatorRecord shape that holds
    all three flag keys, serialising the record obtained by deserialising [d]
    yields a document equal to [d]; in particular the output has a [models]
    key exactly when [d] has one. *)
Theorem round_trip_document (kind : doc_kind) (d : gmap string pyobj) :
  doc_shape kind d = true ->
  doc_complete kind d = true ->
  round_trip kind d = inr d.
Proof.
  destruct kind as [|op_name]; cbn [doc_shape doc_complete round_trip].
  - intros Hshape _. by apply model_round_trip.
  - intros Hshape Hflags.
    rewrite operator_round_trip_defaults by done.
    by rewrite with_default_flags_id.
Qed.

Lemma round_trip_document_witness :
  doc_shape (OperatorRecordDoc "aten::add") doc_operator_full = true /\
  doc_complete (OperatorRecordDoc "aten::add") doc_operator_full = true /\
  round_trip (OperatorRecordDoc "aten::add") doc_operator_full
  = inr doc_operator_full.
Proof.
  assert (doc_shape (OperatorRecordDoc "aten::add") doc_operator_full = true)
    as Hshape by (vm_compute; reflexivity).
  assert (doc_complete (OperatorRecordDoc "aten::add") doc_operator_full = true)
    as Hflags by (vm_compute; reflexivity).
  split_and!; [done..|].
  exact (round_trip_document _ _ Hshape Hflags).
Defined.

(** * Further properties *)

(** ** [strip_operator_overload_name] *)

Section overload_names.
Implicit Types (s base rest : string) (c sep : ascii).

Lemma py_split_nonempty sep s : py_split sep s <> [].
Proof.
  destruct s as [|c s]; cbn [py_split]; [done|].
  destruct (decide (c = sep)); [done|]. by destruct (py_split sep s).
Qed.

Lemma py_split_cons_ne sep c s :
  c <> sep ->
  py_split sep (String c s) =
  String c (default EmptyString (head (py_split sep s))) :: tail (py_split sep s).
Proof.
  intros Hne. cbn [py_split]. rewrite decide_False by done.
  pose proof (py_split_nonempty sep s). by destruct (py_split sep s).
Qed.

Lemma py_split_cons_eq sep s :
  py_split sep (String sep s) = EmptyString :: py_split sep s.
Proof. cbn [py_split]. by rewrite decide_True. Qed.

(** A string without the separator is its own single piece. *)
Lemma py_split_absent sep s : occurs sep s = false -> py_split sep s = [s].
Proof.
  induction s as [|c s IH]; [done|]. cbn [occurs].
  rewrite orb_false_iff, bool_decide_eq_false. intros [Hne Hs].
  rewrite py_split_cons_ne by done. by rewrite IH.
Qed.

(** The pieces of [base ++ sep ++ rest] when [base] is free of [sep]. *)
Lemma py_split_first sep base rest :
  occurs sep base = false ->
  py_split sep (base +:+ String sep rest) = base :: py_split sep rest.
Proof.
  induction base as [|c base IH]; cbn [occurs].
  - intros _. apply py_split_cons_eq.
  - rewrite orb_false_iff, bool_decide_eq_false. intros [Hne Hs].
    change (String c base +:+ String sep rest)
      with (String c (base +:+ String sep rest)).
    rewrite py_split_cons_ne by done. by rewrite IH.
Qed.

(** Every string splits at its first separator, if it has one. *)
Lemma first_separator sep s :
  exists base, occurs sep base = false /\
    if occurs sep s then exists rest, s = base +:+ String sep rest else s = base.
Proof.
  induction s as [|c s (base & Hbase & IH)]; [by exists EmptyString|].
  cbn [occurs]. destruct (decide (c = sep)) as [->|Hne].
  - exists EmptyString. split; [done|].
    rewrite bool_decide_eq_true_2 by done. by exists s.
  - rewrite (bool_decide_eq_false_2 _ Hne). cbn [orb].
    exists (String c base). split.
    { cbn [occurs]. by rewrite (bool_decide_eq_false_2 _ Hne). }
    destruct (occurs sep s); [|by rewrite IH].
    destruct IH as [rest ->]. by exists rest.
Qed.

Lemma append_inv_head s s1 s2 : s +:+ s1 = s +:+ s2 -> s1 = s2.
Proof. induction s as [|c s IH]; cbn; [done|]. intros [= E]. by apply IH. Qed.

End overload_names.

(** X1: [strip_operator_overload_name] never raises: it returns the part of
    the name before its first ["."], which holds no ["."]; a name without
    ["."] is returned whole. *)
Theorem strip_operator_overload_name_base (op_name : string) :
  exists base,
    strip_operator_overload_name op_name = Some base /\
    occurs "."%char base = false /\
    if occurs "."%char op_name
    then exists overload, op_name = base +:+ "." +:+ overload
    else op_name = base.
Proof.
  destruct (first_separator "."%char op_name) as (base & Hbase & Hsplit).
  exists base. split_and!; [|done..].
  unfold strip_operator_overload_name.
  destruct (occurs "."%char op_name).
  - destruct Hsplit as [rest ->]. by rewrite py_split_first.
  - subst base. by rewrite py_split_absent.
Qed.

(** X2: stripping is idempotent: a stripped name is returned unchanged. *)
Theorem strip_operator_overload_name_idempotent (op_name base : string) :
  strip_operator_overload_name op_name = Some base ->
  strip_operator_overload_name base = Some base.
Proof.
  intros Hstrip.
  destruct (first_separator "."%char op_name) as (base' & Hbase & Hsplit).
  assert (base = base') as ->.
  { unfold strip_operator_overload_name in Hstrip.
    destruct (occurs "."%char op_name).
    - destruct Hsplit as [rest ->]. rewrite py_split_first in Hstrip by done.
      by injection Hstrip.
    - subst base'. rewrite py_split_absent in Hstrip by done.
      by injection Hstrip. }
  unfold strip_operator_overload_name. by rewrite py_split_absent.
Qed.

Lemma strip_operator_overload_name_idempotent_witness :
  strip_operator_overload_name "aten::add.out" = Some "aten::add" /\
  strip_operator_overload_name "aten::add" = Some "aten::add".
Proof.
  split; [reflexivity|].
  apply (strip_operator_overload_name_idempotent "aten::add.out" "aten::add").
  reflexivity.
Defined.

(** X3: two names with the same text before their first ["."] are stripped
    to the same base: every overload of an operator, and the operator's bare
    name, have one base name. *)
Theorem strip_operator_overload_name_overloads (base overload : string) :
  occurs "."%char base = false ->
  strip_operator_overload_name (base +:+ "." +:+ overload) = Some base /\
  strip_operator_overload_name base = Some base.
Proof.
  intros Hbase. unfold strip_operator_overload_name.
  change ("." +:+ overload) with (String "."%char overload).
  rewrite py_split_first, (py_split_absent _ base) by done. split; reflexivity.
Qed.

Lemma strip_operator_overload_name_overloads_witness :
  occurs "."%char "aten::add" = false /\
  strip_operator_overload_name ("aten::add" +:+ "." +:+ "Tensor.out")
  = Some "aten::add" /\
  strip_operator_overload_name "aten::add" = Some "aten::add".
Proof.
  split; [reflexivity|].
  apply (strip_operator_overload_name_overloads "aten::add" "Tensor.out").
  reflexivity.
Defined.

(** ** Reading and writing documents *)

Section reading_documents.
Implicit Types (d data : gmap string pyobj) (key : string) (m : Model)
  (op : Operator).

Lemma from_yaml_to_dict m :
  PyTorchModelMetadata.from_yaml (PyTorchModelMetadata.to_dict m) = inr m.
Proof.
  destruct m as [n [v|]];
    unfold PyTorchModelMetadata.from_yaml, PyTorchModelMetadata.to_dict; cbn.
  - rewrite lookup_insert_ne by done. rewrite lookup_singleton_eq.
    by rewrite lookup_insert_eq.
  - rewrite lookup_singleton_eq. by rewrite lookup_singleton_ne.
Qed.

Lemma mapM_from_yaml_to_dict (ms : list Model) :
  mapM PyTorchModelMetadata.from_yaml_obj
    ((fun m => PDict (PyTorchModelMetadata.to_dict m)) <$> ms) = inr ms.
Proof.
  induction ms as [|m ms IH]; [done|].
  rewrite fmap_cons. cbn [mapM PyTorchModelMetadata.from_yaml_obj].
  by rewrite from_yaml_to_dict, IH.
Qed.

Lemma get_flag_to_dict op :
  SelectiveBuildOperator.get_flag (SelectiveBuildOperator.to_dict op)
    "is_root_operator" = inr (SelectiveBuildOperator.is_root_operator op) /\
  SelectiveBuildOperator.get_flag (SelectiveBuildOperator.to_dict op)
    "is_used_for_training" = inr (SelectiveBuildOperator.is_used_for_training op) /\
  SelectiveBuildOperator.get_flag (SelectiveBuildOperator.to_dict op)
    "include_all_overloads" = inr (SelectiveBuildOperator.include_all_overloads op).
Proof.
  unfold SelectiveBuildOperator.get_flag, SelectiveBuildOperator.to_dict.
  destruct op as [n b1 b2 b3 [ms|]]; cbn; split_and!.
  - rewrite !lookup_insert_ne by done. by rewrite lookup_singleton_eq.
  - rewrite !lookup_insert_ne by done. by rewrite lookup_insert_eq.
  - rewrite lookup_insert_ne by done. by rewrite lookup_insert_eq.
  - rewrite !lookup_insert_ne by done. by rewrite lookup_singleton_eq.
  - rewrite lookup_insert_ne by done. by rewrite lookup_insert_eq.
  - by rewrite lookup_insert_eq.
Qed.

Lemma lookup_models_to_dict op :
  SelectiveBuildOperator.to_dict op !! "models" =
  (fun ms => PList ((fun m => PDict (PyTorchModelMetadata.to_dict m)) <$> ms))
    <$> SelectiveBuildOperator.models op.
Proof.
  unfold SelectiveBuildOperator.to_dict.
  destruct op as [n b1 b2 b3 [ms|]]; cbn.
  - by rewrite lookup_insert_eq.
  - rewrite !lookup_insert_ne by done. by rewrite lookup_singleton_ne.
Qed.

Lemma from_yaml_dict_to_dict op_name op :
  SelectiveBuildOperator.from_yaml_dict op_name (SelectiveBuildOperator.to_dict op)
  = inr (SelectiveBuildOperator.mk op_name
           (SelectiveBuildOperator.is_root_operator op)
           (SelectiveBuildOperator.is_used_for_training op)
           (SelectiveBuildOperator.include_all_overloads op)
           (SelectiveBuildOperator.models op)).
Proof.
  destruct (get_flag_to_dict op) as (G1 & G2 & G3).
  unfold SelectiveBuildOperator.from_yaml_dict.
  rewrite G1, G2, G3, lookup_models_to_dict. cbn.
  destruct (SelectiveBuildOperator.models op) as [ms|]; cbn; [|done].
  by rewrite mapM_from_yaml_to_dict.
Qed.

Lemma from_yaml_insert_other key (v : pyobj) data :
  key <> "name" -> key <> "version" ->
  PyTorchModelMetadata.from_yaml (<[key := v]> data)
  = PyTorchModelMetadata.from_yaml data.
Proof.
  intros H1 H2. unfold PyTorchModelMetadata.from_yaml.
  by rewrite !lookup_insert_ne.
Qed.

Lemma from_yaml_dict_insert_other op_name key (v : pyobj) d :
  key ∉ operator_keys ->
  SelectiveBuildOperator.from_yaml_dict op_name (<[key := v]> d)
  = SelectiveBuildOperator.from_yaml_dict op_name d.
Proof.
  unfold operator_keys. rewrite !elem_of_union, !elem_of_singleton. intros Hkey.
  unfold SelectiveBuildOperator.from_yaml_dict, SelectiveBuildOperator.get_flag.
  rewrite !lookup_insert_ne by tauto. done.
Qed.

Lemma from_yaml_cases data :
  match PyTorchModelMetadata.from_yaml data with
  | inl e => DeserializationError e /\ ill_formed_model_doc data
  | inr m => ~ ill_formed_model_doc data
  end.
Proof.
  unfold PyTorchModelMetadata.from_yaml, ill_formed_model_doc.
  destruct (data !! "name") as [o|] eqn:Hname; [|split; [exact I|by left]].
  destruct o; try (split; [exact I|]; right; left; by eexists).
  destruct (data !! "version") as [o|] eqn:Hver.
  - destruct o; try (split; [exact I|]; right; right; by eexists).
    cbn. intros [|[(o & [= <-] & ?)|(o & [= <-] & ?)]]; done.
  - cbn. intros [|[(o & [= <-] & ?)|(o & ? & ?)]]; done.
Qed.

Lemma from_yaml_obj_cases (x : pyobj) :
  match PyTorchModelMetadata.from_yaml_obj x with
  | inl e => DeserializationError e /\ ill_formed_model_obj x
  | inr m => ~ ill_formed_model_obj x
  end.
Proof.
  destruct x; try (by split). apply from_yaml_cases.
Qed.

Lemma mapM_from_yaml_obj_cases (l : list pyobj) :
  match mapM PyTorchModelMetadata.from_yaml_obj l with
  | inl e => DeserializationError e /\ exists x, x ∈ l /\ ill_formed_model_obj x
  | inr ms =>
      Forall2 (fun x m => PyTorchModelMetadata.from_yaml_obj x = inr m) l ms
  end.
Proof.
  induction l as [|x l IH]; [by constructor|].
  cbn [mapM]. pose proof (from_yaml_obj_cases x) as Hx.
  destruct (PyTorchModelMetadata.from_yaml_obj x) as [e|m] eqn:Ex; cbn.
  - destruct Hx as [He Hx]. split; [done|]. exists x. split; [left|done].
  - destruct (mapM _ l) as [e|ms]; cbn.
    + destruct IH as (He & y & Hy & Hbad). split; [done|].
      exists y. split; [by right|done].
    + by constructor.
Qed.

Lemma get_flag_cases d key :
  match SelectiveBuildOperator.get_flag d key with
  | inl e => DeserializationError e /\ ill_typed_flag d key
  | inr b => ~ ill_typed_flag d key /\ default (PBool true) (d !! key) = PBool b
  end.
Proof.
  unfold SelectiveBuildOperator.get_flag, ill_typed_flag.
  destruct (d !! key) as [o|] eqn:E; cbn.
  - destruct o; cbn;
      try (split; [exact I|]; eexists; split; [done|]; intros b; discriminate).
    split; [|done]. intros (o & [= <-] & Hno). by apply (Hno b).
  - split; [|done]. intros (o & ? & _). done.
Qed.

End reading_documents.

(** X4: [from_yaml_dict] fails, with a deserialisation error, exactly when a
    flag key holds something other than a boolean, the key [models] holds
    something other than a list, or an element of that list is rejected by
    [from_yaml]; otherwise the record has the given name, each flag has the
    boolean of the document or [True] where the key is missing, and its
    models are absent exactly when the key [models] is missing, else the
    elements of the list read one by one (so an empty list stays an empty
    list). *)
Theorem from_yaml_dict_fails_exactly (op_name : string) (d : gmap string pyobj) :
  match SelectiveBuildOperator.from_yaml_dict op_name d with
  | inl e => DeserializationError e /\ ill_formed_operator_doc d
  | inr op =>
      ~ ill_formed_operator_doc d /\
      SelectiveBuildOperator.name op = op_name /\
      default (PBool true) (d !! "is_root_operator")
      = PBool (SelectiveBuildOperator.is_root_operator op) /\
      default (PBool true) (d !! "is_used_for_training")
      = PBool (SelectiveBuildOperator.is_used_for_training op) /\
      default (PBool true) (d !! "include_all_overloads")
      = PBool (SelectiveBuildOperator.include_all_overloads op) /\
      match SelectiveBuildOperator.models op with
      | None => d !! "models" = None
      | Some ms =>
          exists l, d !! "models" = Some (PList l) /\
            Forall2 (fun x m => PyTorchModelMetadata.from_yaml_obj x = inr m) l ms
      end
  end.
Proof.
  unfold SelectiveBuildOperator.from_yaml_dict, ill_formed_operator_doc.
  pose proof (get_flag_cases d "is_root_operator") as H1.
  destruct (SelectiveBuildOperator.get_flag d "is_root_operator") as [e|b1];
    cbn; [split; [|left]; apply H1|].
  pose proof (get_flag_cases d "is_used_for_training") as H2.
  destruct (SelectiveBuildOperator.get_flag d "is_used_for_training") as [e|b2];
    cbn; [split; [|right; left]; apply H2|].
  pose proof (get_flag_cases d "include_all_overloads") as H3.
  destruct (SelectiveBuildOperator.get_flag d "include_all_overloads") as [e|b3];
    cbn; [split; [|right; right; left]; apply H3|].
  destruct H1 as [N1 D1], H2 as [N2 D2], H3 as [N3 D3].
  destruct (d !! "models") as [o|] eqn:Hm.
  - destruct o as [| | | |l|];
      try (cbn; split; [exact I|]; do 3 right; left; eexists;
           split; [done|]; intros l; discriminate).
    pose proof (mapM_from_yaml_obj_cases l) as Hl.
    destruct (mapM PyTorchModelMetadata.from_yaml_obj l) as [e|ms]; cbn.
    + destruct Hl as (He & x & Hx & Hbad). split; [done|].
      do 4 right. by exists l, x.
    + split_and!; [|done..|by exists l].
      intros [?|[?|[?|[(o & [= <-] & Hno)|(l' & x & [= <-] & Hx & Hbad)]]]];
        [done..|by apply (Hno l)|].
      apply list_elem_of_lookup in Hx as [i Hi].
      destruct (Forall2_lookup_l _ _ _ _ _ Hl Hi) as (m & _ & Hm').
      pose proof (from_yaml_obj_cases x) as Hcase. rewrite Hm' in Hcase. done.
  - cbn. split_and!; [|done..].
    intros [?|[?|[?|[(o & ? & _)|(l & x & ? & _)]]]]; done.
Qed.

(** X5: a key that is no field name of the document's kind is ignored when
    the document is read, and so is gone after the round trip: a valid,
    complete document with such a key added comes back without it. *)
Theorem round_trip_drops_unknown_key (kind : doc_kind) (d : gmap string pyobj)
  (key : string) (v : pyobj) :
  doc_shape kind d = true ->
  doc_complete kind d = true ->
  key ∉ doc_keys kind ->
  round_trip kind (<[key := v]> d) = inr d.
Proof.
  destruct kind as [|op_name]; cbn [doc_shape doc_complete round_trip doc_keys].
  - intros Hshape _. unfold model_keys.
    rewrite elem_of_union, !elem_of_singleton. intros Hkey.
    rewrite from_yaml_insert_other by tauto. by apply model_round_trip.
  - intros Hshape Hflags Hkey.
    rewrite from_yaml_dict_insert_other by done.
    rewrite operator_round_trip_defaults by done.
    by rewrite with_default_flags_id.
Qed.

Lemma round_trip_drops_unknown_key_witness :
  doc_shape ConsumerMetadataDoc doc_consumer_m1 = true /\
  doc_complete ConsumerMetadataDoc doc_consumer_m1 = true /\
  ("models" ∉ doc_keys ConsumerMetadataDoc) /\
  round_trip ConsumerMetadataDoc (<["models" := PList []]> doc_consumer_m1)
  = inr doc_consumer_m1.
Proof.
  assert (doc_shape ConsumerMetadataDoc doc_consumer_m1 = true)
    as Hshape by (vm_compute; reflexivity).
  assert (doc_complete ConsumerMetadataDoc doc_consumer_m1 = true)
    as Hflags by reflexivity.
  assert ("models" ∉ doc_keys ConsumerMetadataDoc) as Hkey.
  { apply (bool_decide_unpack _). vm_compute. exact I. }
  split_and!; [done..|].
  exact (round_trip_drops_unknown_key _ _ _ (PList []) Hshape Hflags Hkey).
Defined.

(** X6: a document with none of the four operator keys is read as the
    record [from_legacy_operator_name_without_overload] builds: all three
    flags true and the models absent. *)
Theorem from_yaml_dict_defaults (op_name : string) (d : gmap string pyobj) :
  (forall key, key ∈ operator_keys -> d !! key = None) ->
  SelectiveBuildOperator.from_yaml_dict op_name d
  = inr (SelectiveBuildOperator.from_legacy_operator_name_without_overload op_name).
Proof.
  intros Hnone.
  unfold SelectiveBuildOperator.from_yaml_dict, SelectiveBuildOperator.get_flag.
  rewrite !Hnone; [done|unfold operator_keys..];
    rewrite !elem_of_union, !elem_of_singleton; tauto.
Qed.

Lemma from_yaml_dict_defaults_witness :
  (forall key, key ∈ operator_keys ->
     ({[ "name" := PStr "aten::add" ]} : gmap string pyobj) !! key = None) /\
  SelectiveBuildOperator.from_yaml_dict "aten::add" {[ "name" := PStr "aten::add" ]}
  = inr (SelectiveBuildOperator.from_legacy_operator_name_without_overload
           "aten::add").
Proof.
  assert (forall key, key ∈ operator_keys ->
            ({[ "name" := PStr "aten::add" ]} : gmap string pyobj) !! key = None)
    as Hnone.
  { intros key. unfold operator_keys.
    rewrite !elem_of_union, !elem_of_singleton.
    intros [[[->| ->]| ->]| ->]; reflexivity. }
  split; [done|].
  exact (from_yaml_dict_defaults "aten::add" _ Hnone).
Defined.

(** X7: reading the document written for a consumer record gives the record
    back, for every record; so two different records are never written to
    the same document. *)
Theorem from_yaml_after_to_dict (m m' : Model) :
  PyTorchModelMetadata.from_yaml (PyTorchModelMetadata.to_dict m) = inr m /\
  (PyTorchModelMetadata.to_dict m = PyTorchModelMetadata.to_dict m' <-> m = m').
Proof.
  split; [apply from_yaml_to_dict|]. split; [|by intros ->].
  intros E. pose proof (from_yaml_to_dict m) as Hm.
  rewrite E, from_yaml_to_dict in Hm. by injection Hm.
Qed.

(** X8: reading the document written for an operator record under a name
    gives the record with that name and the same flags and models; under the
    record's own name it gives the record back, an absent models list as
    absent and an empty one as empty. *)
Theorem from_yaml_dict_after_to_dict (op_name : string) (op : Operator) :
  SelectiveBuildOperator.from_yaml_dict op_name (SelectiveBuildOperator.to_dict op)
  = inr (SelectiveBuildOperator.mk op_name
           (SelectiveBuildOperator.is_root_operator op)
           (SelectiveBuildOperator.is_used_for_training op)
           (SelectiveBuildOperator.include_all_overloads op)
           (SelectiveBuildOperator.models op)) /\
  SelectiveBuildOperator.from_yaml_dict (SelectiveBuildOperator.name op)
    (SelectiveBuildOperator.to_dict op) = inr op.
Proof.
  split; [apply from_yaml_dict_to_dict|].
  rewrite from_yaml_dict_to_dict. by destruct op.
Qed.

(** X9: the document written for an operator record never holds the key
    [name], and two records are written to the same document exactly when
    they agree on the three flags and the models, whatever their names. *)
Theorem to_dict_forgets_name (op op' : Operator) :
  SelectiveBuildOperator.to_dict op !! "name" = None /\
  (SelectiveBuildOperator.to_dict op = SelectiveBuildOperator.to_dict op' <->
   SelectiveBuildOperator.is_root_operator op
   = SelectiveBuildOperator.is_root_operator op' /\
   SelectiveBuildOperator.is_used_for_training op
   = SelectiveBuildOperator.is_used_for_training op' /\
   SelectiveBuildOperator.include_all_overloads op
   = SelectiveBuildOperator.include_all_overloads op' /\
   SelectiveBuildOperator.models op = SelectiveBuildOperator.models op').
Proof.
  split.
  - unfold SelectiveBuildOperator.to_dict.
    destruct (SelectiveBuildOperator.models op); cbn;
      rewrite !lookup_insert_ne by done; by rewrite lookup_singleton_ne.
  - split.
    + intros E. pose proof (from_yaml_dict_to_dict "" op) as Hop.
      rewrite E, from_yaml_dict_to_dict in Hop. by injection Hop.
    + intros (E1 & E2 & E3 & E4). unfold SelectiveBuildOperator.to_dict.
      by rewrite E1, E2, E3, E4.
Qed.

(** ** More on insertion-ordered dictionaries *)

Section ordered_dict_more.
Context {V : Type}.
Implicit Types (d acc items : list (string * V)) (k : string) (v : V).

Lemma dict_set_same k v d : dict_get k d = Some v -> dict_set k v d = d.
Proof.
  induction d as [|[k0 v0] d IH]; cbn [dict_get dict_set]; [done|].
  destruct (decide (k = k0)) as [->|Hne].
  - by intros [= ->].
  - intros Hget. by rewrite IH.
Qed.

(** Storing again what is stored changes nothing. *)
Lemma upsert_all_keep_new_same items acc :
  Forall (fun p => dict_get p.1 acc = Some p.2) items ->
  upsert_all keep_new items acc = acc.
Proof.
  induction 1 as [|[k v] items Hkv Hitems IH]; [done|].
  rewrite upsert_all_cons. unfold upsert. cbn in Hkv. rewrite Hkv.
  cbn [merged]. unfold keep_new at 2. by rewrite dict_set_same.
Qed.

Lemma filter_iff_elem {A} (P Q : A -> Prop) `{!forall x, Decision (P x)}
  `{!forall x, Decision (Q x)} (l : list A) :
  (forall x, x ∈ l -> P x <-> Q x) -> filter P l = filter Q l.
Proof.
  induction l as [|a l IH]; intros Hiff; [done|].
  assert (filter P l = filter Q l) as E.
  { apply IH. intros x Hx. apply Hiff. by right. }
  pose proof (Hiff a (list_elem_of_here a l)) as Ha.
  destruct (decide (P a)) as [Hp|Hp].
  - rewrite !filter_cons_True by tauto. by rewrite E.
  - rewrite !filter_cons_False by tauto. done.
Qed.

Lemma add_keys_NoDup (ks seen : list string) :
  NoDup ks -> foldl add_key seen ks = seen ++ filter (.∉ seen) ks.
Proof.
  revert seen. induction ks as [|k ks IH]; intros seen Hnd.
  - by rewrite app_nil_r.
  - apply NoDup_cons in Hnd as [Hnin Hnd]. cbn [foldl].
    rewrite IH by done. destruct (decide (k ∈ seen)) as [Hin|Hout].
    + rewrite add_key_old by done. by rewrite filter_cons_False by tauto.
    + rewrite add_key_new by done. rewrite filter_cons_True by done.
      rewrite <- app_assoc. cbn [app]. do 2 f_equal.
      apply filter_iff_elem.
      intros x Hx. rewrite elem_of_app, list_elem_of_singleton.
      split; [tauto|]. intros Hns [?| ->]; done.
Qed.

End ordered_dict_more.

(** ** Canonical strings and the merge of consumer lists *)

Section canonical_strings.
Implicit Types (m : Model) (ms : list Model) (lhs rhs : option (list Model)).

Lemma py_split_str m :
  occurs "@"%char (PyTorchModelMetadata.name m) = false ->
  py_split "@"%char (PyTorchModelMetadata.str m) =
  PyTorchModelMetadata.name m
  :: match PyTorchModelMetadata.version m with
     | None => []
     | Some ver => py_split "@"%char ver
     end.
Proof.
  intros Hname. unfold PyTorchModelMetadata.str.
  destruct (PyTorchModelMetadata.version m) as [ver|].
  - change ("@" +:+ ver) with (String "@"%char ver). by apply py_split_first.
  - by apply py_split_absent.
Qed.

Lemma str_inj_no_at m m' :
  occurs "@"%char (PyTorchModelMetadata.name m) = false ->
  occurs "@"%char (PyTorchModelMetadata.name m') = false ->
  PyTorchModelMetadata.str m = PyTorchModelMetadata.str m' -> m = m'.
Proof.
  intros Hm Hm' Hstr.
  pose proof (py_split_str m Hm) as Sm. pose proof (py_split_str m' Hm') as Sm'.
  rewrite Hstr, Sm' in Sm. injection Sm as Hname Hrest.
  destruct m as [n v], m' as [n' v']. cbn in *. subst n'.
  destruct v as [v|], v' as [v'|].
  - unfold PyTorchModelMetadata.str in Hstr. cbn in Hstr.
    apply append_inv_head in Hstr.
    change ("@" +:+ v) with (String "@"%char v) in Hstr.
    change ("@" +:+ v') with (String "@"%char v') in Hstr.
    injection Hstr as E. by rewrite E.
  - symmetry in Hrest. by apply py_split_nonempty in Hrest.
  - by apply py_split_nonempty in Hrest.
  - done.
Qed.

Lemma dedup_keep_last_subset ms m : m ∈ dedup_keep_last ms -> m ∈ ms.
Proof.
  revert m. induction ms as [|x ms IH]; intros m; [done|].
  cbn [dedup_keep_last]. rewrite elem_of_cons. intros [->|Hin].
  - destruct (last _) as [y|] eqn:E; cbn; [|left].
    apply last_Some_elem_of, list_elem_of_filter in E as [_ Hy]. by right.
  - apply list_elem_of_filter in Hin as [_ Hin]. right. by apply IH.
Qed.

Lemma elem_of_str_dedup_keep_last ms (k : string) :
  k ∈ PyTorchModelMetadata.str <$> dedup_keep_last ms
  <-> k ∈ PyTorchModelMetadata.str <$> ms.
Proof.
  rewrite str_dedup_keep_last, add_keys_elem, elem_of_nil. tauto.
Qed.

(** Every entry kept is the last entry with its canonical string. *)
Lemma dedup_keep_last_is_last ms m :
  m ∈ dedup_keep_last ms -> last (filter (same_str m) ms) = Some m.
Proof.
  revert m. induction ms as [|x ms IH]; intros m.
  - by intros ?%elem_of_nil.
  - cbn [dedup_keep_last]. rewrite elem_of_cons. intros [->|Hin].
    + pose proof (str_last_same x ms) as Hstr.
      set (y := default x (last (filter (same_str x) ms))) in *.
      rewrite filter_cons_True by (unfold same_str; by rewrite Hstr).
      rewrite last_cons.
      rewrite (list_filter_iff (same_str y) (same_str x)).
      2:{ intros z. unfold same_str. by rewrite Hstr. }
      subst y. by destruct (last (filter (same_str x) ms)).
    + apply list_elem_of_filter in Hin as [Hother Hin].
      rewrite filter_cons_False; [by apply IH|].
      unfold same_str. unfold other_str in Hother. congruence.
Qed.

Lemma present_merge_model_lists lhs rhs :
  present (merge_model_lists lhs rhs) = dedup_keep_last (present lhs ++ present rhs).
Proof.
  rewrite merge_model_lists_dedup. unfold merge_keep_last.
  apply present_absent_if_empty.
Qed.

Lemma fill_mdict_NoDup ms :
  NoDup (PyTorchModelMetadata.str <$> ms) -> fill_mdict ms [] = keyed ms.
Proof.
  intros Hnd. rewrite fill_mdict_upsert_all.
  apply (upsert_all_fresh _ (keyed ms) []).
  unfold dict_wf. by rewrite app_nil_l, dict_keys_keyed.
Qed.

End canonical_strings.

(** X10: on records whose names hold no ["@"] the canonical string is
    injective: two such records with one canonical string are one record. *)
Theorem str_injective_without_at (m m' : Model) :
  occurs "@"%char (PyTorchModelMetadata.name m) = false ->
  occurs "@"%char (PyTorchModelMetadata.name m') = false ->
  PyTorchModelMetadata.str m = PyTorchModelMetadata.str m' ->
  m = m'.
Proof.
  intros Hm Hm' Hstr. by apply str_inj_no_at.
Qed.

Lemma str_injective_without_at_witness :
  occurs "@"%char (PyTorchModelMetadata.name consumer_m1) = false /\
  occurs "@"%char
    (PyTorchModelMetadata.name (PyTorchModelMetadata.mk "m" (Some "1"))) = false /\
  PyTorchModelMetadata.str consumer_m1
  = PyTorchModelMetadata.str (PyTorchModelMetadata.mk "m" (Some "1")) /\
  consumer_m1 = PyTorchModelMetadata.mk "m" (Some "1").
Proof.
  split_and!; [reflexivity..|].
  apply (str_injective_without_at consumer_m1
           (PyTorchModelMetadata.mk "m" (Some "1"))); reflexivity.
Defined.

(** X11: when no name in the two inputs holds an ["@"], [merge_model_lists]
    removes exact duplicates only: it returns the concatenation with every
    entry kept at its first occurrence and its later repetitions dropped. *)
Theorem merge_model_lists_without_at (lhs rhs : option (list Model)) :
  Forall (fun m => occurs "@"%char (PyTorchModelMetadata.name m) = false)
         (present lhs ++ present rhs) ->
  merge_model_lists lhs rhs = merge_keep_first lhs rhs.
Proof.
  intros Hnames. rewrite merge_model_lists_dedup.
  unfold merge_keep_last, merge_keep_first. f_equal.
  apply dedup_keep_last_first. intros m m' Hm Hm' Hstr.
  rewrite Forall_forall in Hnames.
  apply str_inj_no_at; auto.
Qed.

Lemma merge_model_lists_without_at_witness :
  Forall (fun m => occurs "@"%char (PyTorchModelMetadata.name m) = false)
         (present (Some [consumer_m1; consumer_versioned])
          ++ present (Some [consumer_m1])) /\
  merge_model_lists (Some [consumer_m1; consumer_versioned]) (Some [consumer_m1])
  = merge_keep_first (Some [consumer_m1; consumer_versioned]) (Some [consumer_m1]).
Proof.
  assert (Forall (fun m => occurs "@"%char (PyTorchModelMetadata.name m) = false)
            (present (Some [consumer_m1; consumer_versioned])
             ++ present (Some [consumer_m1]))) as Hnames
    by (repeat constructor).
  split; [done|].
  exact (merge_model_lists_without_at _ _ Hnames).
Defined.

(** X12: [merge_model_lists] invents no entry and loses no canonical string:
    every entry returned is an entry of an input, and the canonical strings
    of the result are exactly those of the inputs. *)
Theorem merge_model_lists_entries (lhs rhs : option (list Model)) :
  (forall m, m ∈ present (merge_model_lists lhs rhs) ->
     m ∈ present lhs ++ present rhs) /\
  (forall k, k ∈ PyTorchModelMetadata.str <$> present (merge_model_lists lhs rhs)
     <-> k ∈ PyTorchModelMetadata.str <$> (present lhs ++ present rhs)).
Proof.
  rewrite present_merge_model_lists. split.
  - intros m. apply dedup_keep_last_subset.
  - intros k. apply elem_of_str_dedup_keep_last.
Qed.

(** X13: on a collision the right input wins: an entry returned whose
    canonical string occurs in [rhs] is an entry of [rhs]. *)
Theorem merge_model_lists_right_bias (lhs rhs : option (list Model)) (m : Model) :
  m ∈ present (merge_model_lists lhs rhs) ->
  PyTorchModelMetadata.str m ∈ PyTorchModelMetadata.str <$> present rhs ->
  m ∈ present rhs.
Proof.
  rewrite present_merge_model_lists. intros Hm Hstr.
  apply dedup_keep_last_is_last in Hm. rewrite filter_app, last_app in Hm.
  apply list_elem_of_fmap in Hstr as (r & Hr & Hin).
  assert (r ∈ filter (same_str m) (present rhs)) as Hfilter.
  { apply list_elem_of_filter. split; [|done]. unfold same_str. by rewrite Hr. }
  destruct (last (filter (same_str m) (present rhs))) as [y|] eqn:E.
  - injection Hm as ->.
    by apply last_Some_elem_of, list_elem_of_filter in E as [_ ?].
  - apply last_None in E. rewrite E in Hfilter. by apply elem_of_nil in Hfilter.
Qed.

Lemma merge_model_lists_right_bias_witness :
  consumer_versioned
    ∈ present (merge_model_lists (Some [consumer_plain; consumer_m1])
                                 (Some [consumer_versioned])) /\
  (PyTorchModelMetadata.str consumer_versioned
     ∈ PyTorchModelMetadata.str <$> present (Some [consumer_versioned])) /\
  consumer_versioned ∈ present (Some [consumer_versioned]).
Proof.
  assert (consumer_versioned
            ∈ present (merge_model_lists (Some [consumer_plain; consumer_m1])
                                         (Some [consumer_versioned]))) as Hm.
  { apply (bool_decide_unpack _). vm_compute. exact I. }
  assert (PyTorchModelMetadata.str consumer_versioned
            ∈ PyTorchModelMetadata.str <$> present (Some [consumer_versioned]))
    as Hstr.
  { apply (bool_decide_unpack _). vm_compute. exact I. }
  split_and!; [done..|].
  exact (merge_model_lists_right_bias _ _ _ Hm Hstr).
Defined.

(** X14: a list whose canonical strings are pairwise different is left as
    it is when merged with an absent or empty other side, on either side,
    except that the empty list comes back as absent. *)
Theorem merge_model_lists_fixed_point (ms : list Model) :
  NoDup (PyTorchModelMetadata.str <$> ms) ->
  merge_model_lists (Some ms) None = absent_if_empty ms /\
  merge_model_lists None (Some ms) = absent_if_empty ms /\
  merge_model_lists (Some ms) (Some []) = absent_if_empty ms /\
  merge_model_lists (Some []) (Some ms) = absent_if_empty ms.
Proof.
  intros Hnd.
  assert (absent_if_empty (dict_values (fill_mdict ms [])) = absent_if_empty ms)
    as E by (by rewrite fill_mdict_NoDup, dict_values_keyed).
  split_and!; rewrite merge_model_lists_unfold; cbn [present];
    rewrite ?app_nil_r, ?app_nil_l; exact E.
Qed.

Lemma merge_model_lists_fixed_point_witness :
  NoDup (PyTorchModelMetadata.str <$> [consumer_plain; consumer_m1]) /\
  merge_model_lists (Some [consumer_plain; consumer_m1]) None
  = absent_if_empty [consumer_plain; consumer_m1] /\
  merge_model_lists None (Some [consumer_plain; consumer_m1])
  = absent_if_empty [consumer_plain; consumer_m1] /\
  merge_model_lists (Some [consumer_plain; consumer_m1]) (Some [])
  = absent_if_empty [consumer_plain; consumer_m1] /\
  merge_model_lists (Some []) (Some [consumer_plain; consumer_m1])
  = absent_if_empty [consumer_plain; consumer_m1].
Proof.
  assert (NoDup (PyTorchModelMetadata.str <$> [consumer_plain; consumer_m1]))
    as Hnd.
  { apply (bool_decide_unpack _). vm_compute. exact I. }
  split; [done|].
  exact (merge_model_lists_fixed_point _ Hnd).
Defined.

(** X15: [merge_model_lists] is associative, order of the entries
    included. *)
Theorem merge_model_lists_associative (a b c : option (list Model)) :
  merge_model_lists (merge_model_lists a b) c =
  merge_model_lists a (merge_model_lists b c).
Proof.
  rewrite !(merge_model_lists_unfold _ c), !(merge_model_lists_unfold a).
  rewrite !present_absent_if_empty. do 2 f_equal.
  rewrite (fill_mdict_upsert_all (dict_values _ ++ _)).
  rewrite (fill_mdict_upsert_all (_ ++ dict_values _)).
  rewrite !keyed_app, !keyed_values_fill_mdict.
  rewrite !fill_mdict_upsert_all, !keyed_app.
  apply upsert_all_assoc, keep_new_assoc.
Qed.

(** X16: a merged list is already merged: merging the result with an absent
    other side, or with itself, returns it unchanged. *)
Theorem merge_model_lists_idempotent (lhs rhs : option (list Model)) :
  merge_model_lists (merge_model_lists lhs rhs) None = merge_model_lists lhs rhs /\
  merge_model_lists (merge_model_lists lhs rhs) (merge_model_lists lhs rhs)
  = merge_model_lists lhs rhs.
Proof.
  pose proof (dedup_keep_last_NoDup (present lhs ++ present rhs)) as Hnd.
  pose proof (present_merge_model_lists lhs rhs) as Hpresent.
  assert (merge_model_lists lhs rhs
          = absent_if_empty (dedup_keep_last (present lhs ++ present rhs))) as Hm
    by apply merge_model_lists_dedup.
  set (D := dedup_keep_last (present lhs ++ present rhs)) in *.
  split.
  - rewrite merge_model_lists_unfold, Hpresent. cbn [present].
    by rewrite app_nil_r, fill_mdict_NoDup, dict_values_keyed.
  - rewrite merge_model_lists_unfold, Hpresent.
    rewrite fill_mdict_upsert_all, keyed_app, upsert_all_app.
    rewrite <- (fill_mdict_upsert_all D []), fill_mdict_NoDup by done.
    rewrite upsert_all_keep_new_same; [by rewrite dict_values_keyed|].
    apply Forall_forall. intros [k m] Hin. cbn.
    apply dict_elem_get; [|done]. unfold dict_wf. by rewrite dict_keys_keyed.
Qed.

(** X17: swapping the two inputs changes the result by no more than a
    permutation of its canonical strings (and which entry stands for a
    canonical string that collides). *)
Theorem merge_model_lists_swap (lhs rhs : option (list Model)) :
  PyTorchModelMetadata.str <$> present (merge_model_lists lhs rhs)
  ≡ₚ PyTorchModelMetadata.str <$> present (merge_model_lists rhs lhs).
Proof.
  rewrite !present_merge_model_lists.
  apply NoDup_Permutation; [apply dedup_keep_last_NoDup..|].
  intros k. rewrite !elem_of_str_dedup_keep_last, !fmap_app, !elem_of_app. tauto.
Qed.

(** ** More on [combine_operators] and [merge_operator_dicts] *)

Section registries_more.
Implicit Types (op cur a b : Operator) (items acc : list (string * Operator)).

Lemma combine_operators_cases a b :
  (SelectiveBuildOperator.name a = SelectiveBuildOperator.name b /\
   combine_operators a b = inr (combined a b))
  \/ (SelectiveBuildOperator.name a <> SelectiveBuildOperator.name b /\
      combine_operators a b
      = inl (Exception (name_mismatch (SelectiveBuildOperator.name a)
                                      (SelectiveBuildOperator.name b)))).
Proof.
  unfold combine_operators.
  destruct (decide (SelectiveBuildOperator.name a = SelectiveBuildOperator.name b))
    as [E|N].
  - left. split; [done|]. by rewrite decide_False by tauto.
  - right. split; [done|]. by rewrite decide_True.
Qed.

Lemma same_but_models_order_refl a : same_but_models_order a a.
Proof. by repeat split. Qed.

Lemma combined_swap a b :
  SelectiveBuildOperator.name a = SelectiveBuildOperator.name b ->
  same_but_models_order (combined a b) (combined b a).
Proof.
  intros Hname. unfold same_but_models_order, combined. cbn.
  split_and!; [done|apply orb_comm..|].
  rewrite !present_merge_model_lists.
  apply NoDup_Permutation; [apply dedup_keep_last_NoDup..|].
  intros k. rewrite !elem_of_str_dedup_keep_last, !fmap_app, !elem_of_app. tauto.
Qed.

Lemma merge_loop_app_fresh items1 items2 acc :
  dict_wf (acc ++ items1) ->
  merge_loop (items1 ++ items2) acc = merge_loop items2 (acc ++ items1).
Proof.
  unfold dict_wf, dict_keys.
  revert acc. induction items1 as [|[k op] items1 IH]; intros acc Hwf.
  - by rewrite app_nil_r.
  - rewrite <- app_comm_cons, merge_loop_cons.
    assert (k ∉ dict_keys acc) as Hnin.
    { rewrite fmap_app, fmap_cons in Hwf. apply NoDup_app in Hwf as (_ & Hd & _).
      intros Hin. apply (Hd k Hin). left. }
    apply dict_get_None in Hnin as Hget. rewrite Hget. cbn.
    rewrite dict_set_fresh by done.
    rewrite IH; rewrite <- app_assoc; done.
Qed.

Lemma merge_loop_success items acc operators :
  merge_loop items acc = inr operators ->
  operators = upsert_all combined items acc.
Proof.
  revert acc. induction items as [|[k op] items IH]; intros acc.
  - by intros [= <-].
  - rewrite merge_loop_cons, upsert_all_cons. unfold upsert.
    destruct (dict_get k acc) as [cur|]; cbn [merged]; [|apply IH].
    destruct (combine_operators_cases cur op) as [[_ ->]|[_ ->]]; [apply IH|done].
Qed.

(** The loop over items with pairwise distinct keys raises exactly when an
    item meets a stored record with another name. *)
Lemma merge_loop_conflict items acc :
  dict_wf items ->
  match merge_loop items acc with
  | inl e =>
      InvariantViolation e /\
      exists k a b, dict_get k acc = Some a /\ (k, b) ∈ items /\
        SelectiveBuildOperator.name a <> SelectiveBuildOperator.name b /\
        combine_operators a b = inl e
  | inr _ =>
      forall k a b, dict_get k acc = Some a -> (k, b) ∈ items ->
        SelectiveBuildOperator.name a = SelectiveBuildOperator.name b
  end.
Proof.
  unfold dict_wf, dict_keys.
  revert acc. induction items as [|[k op] items IH]; intros acc Hwf.
  - cbn. intros k a b _ Hin. by apply elem_of_nil in Hin.
  - rewrite fmap_cons in Hwf. apply NoDup_cons in Hwf as [Hnin Hwf]. cbn in Hnin.
    rewrite merge_loop_cons.
    assert (forall new_op k' b, (k', b) ∈ items ->
              dict_get k' (dict_set k new_op acc) = dict_get k' acc) as Hother.
    { intros new_op k' b Hin. rewrite dict_get_set, decide_False; [done|].
      intros ->. apply Hnin, list_elem_of_fmap. by exists (k, b). }
    assert (forall new_op,
      (forall cur, dict_get k acc = Some cur ->
                   SelectiveBuildOperator.name cur = SelectiveBuildOperator.name op) ->
      match merge_loop items (dict_set k new_op acc) with
      | inl e =>
          InvariantViolation e /\
          exists k0 a b, dict_get k0 acc = Some a /\ (k0, b) ∈ (k, op) :: items /\
            SelectiveBuildOperator.name a <> SelectiveBuildOperator.name b /\
            combine_operators a b = inl e
      | inr _ =>
          forall k0 a b, dict_get k0 acc = Some a -> (k0, b) ∈ (k, op) :: items ->
            SelectiveBuildOperator.name a = SelectiveBuildOperator.name b
      end) as Hrest.
    { intros new_op Hhead. specialize (IH (dict_set k new_op acc) Hwf).
      destruct (merge_loop items (dict_set k new_op acc)) as [e|ops].
      - destruct IH as (He & k0 & a & b & Hget & Hin & Hne & Hraise).
        split; [done|].
        exists k0, a, b. rewrite (Hother _ _ _ Hin) in Hget.
        split_and!; [done| by right |done..].
      - intros k0 a b Hget [[= -> ->]|Hin]%elem_of_cons; [by apply Hhead|].
        apply (IH k0 a b); [|done]. by rewrite (Hother _ _ _ Hin). }
    destruct (dict_get k acc) as [cur|] eqn:Hcur.
    + destruct (combine_operators_cases cur op) as [[Hname E]|[Hname E]];
        rewrite E; cbn.
      * apply Hrest. by intros ? [= <-].
      * split; [exact I|]. exists k, cur, op. split_and!; [done|left|done..].
    + cbn. apply Hrest. intros cur. done.
Qed.

Lemma fold_key_app {V} (f : V -> V -> V) k (items1 items2 : list (string * V))
  (o : option V) :
  fold_key f k (items1 ++ items2) o = fold_key f k items2 (fold_key f k items1 o).
Proof. unfold fold_key. apply foldl_app. Qed.

(** The content of a merge that did not raise. *)
Lemma merge_operator_dicts_content (lhs rhs operators : list (string * Operator)) :
  dict_wf lhs -> dict_wf rhs ->
  merge_operator_dicts lhs rhs = inr operators ->
  dict_keys operators = dict_keys lhs ++ filter (.∉ dict_keys lhs) (dict_keys rhs) /\
  forall k, dict_get k operators =
    match dict_get k lhs, dict_get k rhs with
    | Some a, Some b => Some (combined a b)
    | Some a, None => Some a
    | None, o => o
    end.
Proof.
  intros Hl Hr ->%merge_loop_success. split.
  - rewrite upsert_all_app, (upsert_all_fresh _ lhs []) by done.
    rewrite app_nil_l, dict_keys_upsert_all. by apply add_keys_NoDup.
  - intros k. rewrite dict_get_upsert_all, fold_key_app. cbn [dict_get].
    rewrite (fold_key_wf _ _ lhs) by done.
    rewrite (fold_key_wf _ _ rhs) by done.
    by destruct (dict_get k lhs), (dict_get k rhs).
Qed.

Lemma merge_operator_dicts_conflict (lhs rhs : list (string * Operator)) :
  dict_wf lhs -> dict_wf rhs ->
  match merge_operator_dicts lhs rhs with
  | inl e =>
      InvariantViolation e /\
      exists k a b, dict_get k lhs = Some a /\ dict_get k rhs = Some b /\
        SelectiveBuildOperator.name a <> SelectiveBuildOperator.name b /\
        combine_operators a b = inl e
  | inr _ =>
      forall k a b, dict_get k lhs = Some a -> dict_get k rhs = Some b ->
        SelectiveBuildOperator.name a = SelectiveBuildOperator.name b
  end.
Proof.
  intros Hl Hr. unfold merge_operator_dicts.
  rewrite (merge_loop_app_fresh lhs rhs []) by done. rewrite app_nil_l.
  pose proof (merge_loop_conflict rhs lhs Hr) as Hc.
  destruct (merge_loop rhs lhs) as [e|ops].
  - destruct Hc as (He & k & a & b & Hget & Hin & Hne & Hraise). split; [done|].
    exists k, a, b. split_and!; [done| |done..]. by apply dict_elem_get.
  - intros k a b Ha Hb. apply (Hc k a b Ha). by apply dict_get_elem.
Qed.

End registries_more.

(** X18: for three records of one name [combine_operators] is associative:
    both nestings succeed and return the same record. *)
Theorem combine_operators_assoc (a b c : Operator) :
  SelectiveBuildOperator.name a = SelectiveBuildOperator.name b ->
  SelectiveBuildOperator.name b = SelectiveBuildOperator.name c ->
  exists ab bc abc,
    combine_operators a b = inr ab /\
    combine_operators ab c = inr abc /\
    combine_operators b c = inr bc /\
    combine_operators a bc = inr abc.
Proof.
  intros Hab Hbc.
  exists (combined a b), (combined b c), (combined (combined a b) c).
  rewrite !combine_operators_same_name; cbn; try congruence.
  split_and!; try done. by rewrite combined_assoc.
Qed.

Lemma combine_operators_assoc_witness :
  SelectiveBuildOperator.name op_x_plain = SelectiveBuildOperator.name op_x_root /\
  SelectiveBuildOperator.name op_x_root = SelectiveBuildOperator.name op_x_plain /\
  exists ab bc abc,
    combine_operators op_x_plain op_x_root = inr ab /\
    combine_operators ab op_x_plain = inr abc /\
    combine_operators op_x_root op_x_plain = inr bc /\
    combine_operators op_x_plain bc = inr abc.
Proof.
  split_and!; [reflexivity..|].
  apply (combine_operators_assoc op_x_plain op_x_root op_x_plain); reflexivity.
Defined.

(** X19: swapping the arguments of [combine_operators] keeps failure and
    success, and on success the two records have the same name and flags and
    models with the same canonical strings, up to their order. *)
Theorem combine_operators_swap (a b : Operator) :
  match combine_operators a b, combine_operators b a with
  | inr x, inr y => same_but_models_order x y
  | inl e, inl e' => InvariantViolation e /\ InvariantViolation e'
  | _, _ => False
  end.
Proof.
  destruct (combine_operators_cases a b) as [[Hab ->]|[Hab ->]],
    (combine_operators_cases b a) as [[Hba ->]|[Hba ->]]; try congruence.
  - by apply combined_swap.
  - done.
Qed.

(** X20: combining with the legacy record of the same name, on either side,
    gives one and the same record: all three flags true, and as models the
    other record's models merged with nothing. *)
Theorem combine_operators_legacy (op : Operator) :
  combine_operators
    (SelectiveBuildOperator.from_legacy_operator_name_without_overload
       (SelectiveBuildOperator.name op)) op
  = inr (SelectiveBuildOperator.mk (SelectiveBuildOperator.name op) true true true
           (merge_model_lists (SelectiveBuildOperator.models op) None)) /\
  combine_operators op
    (SelectiveBuildOperator.from_legacy_operator_name_without_overload
       (SelectiveBuildOperator.name op))
  = inr (SelectiveBuildOperator.mk (SelectiveBuildOperator.name op) true true true
           (merge_model_lists (SelectiveBuildOperator.models op) None)).
Proof.
  rewrite !combine_operators_same_name by done.
  unfold combined, SelectiveBuildOperator.from_legacy_operator_name_without_overload.
  cbn. rewrite !orb_true_r. split; [|done]. do 2 f_equal.
  rewrite !merge_model_lists_unfold. cbn [present]. by rewrite app_nil_r.
Qed.

(** X21: for two registries [merge_operator_dicts] raises exactly when some
    key is in both and the two records stored under it have different names,
    and what it raises is the exception that [combine_operators] raises for
    the two records of such a key, the record of [lhs] first; keys that are
    in one registry only are never checked. *)
Theorem merge_operator_dicts_fails_exactly (lhs rhs : list (string * Operator)) :
  dict_wf lhs -> dict_wf rhs ->
  match merge_operator_dicts lhs rhs with
  | inl e =>
      InvariantViolation e /\
      exists k a b, dict_get k lhs = Some a /\ dict_get k rhs = Some b /\
        SelectiveBuildOperator.name a <> SelectiveBuildOperator.name b /\
        combine_operators a b = inl e
  | inr _ =>
      forall k a b, dict_get k lhs = Some a -> dict_get k rhs = Some b ->
        SelectiveBuildOperator.name a = SelectiveBuildOperator.name b
  end.
Proof.
  intros Hl Hr. pose proof (merge_operator_dicts_conflict lhs rhs Hl Hr) as Hc.
  destruct (merge_operator_dicts lhs rhs) as [e|operators]; exact Hc.
Qed.

Lemma merge_operator_dicts_fails_exactly_witness :
  dict_wf registry_A /\ dict_wf registry_misnamed /\
  match merge_operator_dicts registry_A registry_misnamed with
  | inl e =>
      InvariantViolation e /\
      exists k a b, dict_get k registry_A = Some a /\
        dict_get k registry_misnamed = Some b /\
        SelectiveBuildOperator.name a <> SelectiveBuildOperator.name b /\
        combine_operators a b = inl e
  | inr _ =>
      forall k a b, dict_get k registry_A = Some a ->
        dict_get k registry_misnamed = Some b ->
        SelectiveBuildOperator.name a = SelectiveBuildOperator.name b
  end.
Proof.
  assert (dict_wf registry_A) as HA.
  { unfold dict_wf. apply (bool_decide_unpack _). vm_compute. exact I. }
  assert (dict_wf registry_misnamed) as HB.
  { unfold dict_wf. apply (bool_decide_unpack _). vm_compute. exact I. }
  split_and!; [done..|].
  exact (merge_operator_dicts_fails_exactly registry_A registry_misnamed HA HB).
Defined.

(** X22: a merge that does not raise returns the keys of [lhs] in their
    order followed by the keys only [rhs] has, in their order; under a key
    of both it stores the record [combine_operators] returns for the two
    records, under a key of one it stores that registry's record unchanged,
    and it stores nothing else. *)
Theorem merge_operator_dicts_lookup (lhs rhs operators : list (string * Operator)) :
  dict_wf lhs -> dict_wf rhs ->
  merge_operator_dicts lhs rhs = inr operators ->
  dict_wf operators /\
  dict_keys operators = dict_keys lhs ++ filter (.∉ dict_keys lhs) (dict_keys rhs) /\
  forall k,
    match dict_get k lhs, dict_get k rhs with
    | Some a, Some b =>
        exists r, combine_operators a b = inr r /\ dict_get k operators = Some r
    | Some a, None => dict_get k operators = Some a
    | None, o => dict_get k operators = o
    end.
Proof.
  intros Hl Hr Hmerge.
  destruct (merge_operator_dicts_content lhs rhs operators Hl Hr Hmerge)
    as [Hkeys Hget].
  pose proof (merge_operator_dicts_conflict lhs rhs Hl Hr) as Hnames.
  rewrite Hmerge in Hnames. split_and!; [|done|].
  - apply merge_loop_success in Hmerge as ->. apply upsert_all_wf, NoDup_nil_2.
  - intros k. specialize (Hget k).
    destruct (dict_get k lhs) as [a|] eqn:Ha, (dict_get k rhs) as [b|] eqn:Hb;
      try done.
    exists (combined a b). split; [|done].
    apply combine_operators_same_name. by apply (Hnames k).
Qed.

Lemma merge_operator_dicts_lookup_witness :
  dict_wf registry_A /\ dict_wf registry_B /\
  merge_operator_dicts registry_A registry_B = inr registry_AB /\
  dict_wf registry_AB /\
  dict_keys registry_AB
  = dict_keys registry_A ++ filter (.∉ dict_keys registry_A) (dict_keys registry_B) /\
  forall k,
    match dict_get k registry_A, dict_get k registry_B with
    | Some a, Some b =>
        exists r, combine_operators a b = inr r /\ dict_get k registry_AB = Some r
    | Some a, None => dict_get k registry_AB = Some a
    | None, o => dict_get k registry_AB = o
    end.
Proof.
  assert (dict_wf registry_A) as HA.
  { unfold dict_wf. apply (bool_decide_unpack _). vm_compute. exact I. }
  assert (dict_wf registry_B) as HB.
  { unfold dict_wf. apply (bool_decide_unpack _). vm_compute. exact I. }
  assert (merge_operator_dicts registry_A registry_B = inr registry_AB) as HAB
    by (vm_compute; reflexivity).
  do 3 (split; [done|]).
  exact (merge_operator_dicts_lookup registry_A registry_B registry_AB HA HB HAB).
Defined.

(** X23: two registries without a common key are merged by putting their
    entries one after the other, in either order of the arguments, and the
    names of the records are not looked at; so the empty registry is a left
    identity as well. *)
Theorem merge_operator_dicts_disjoint (lhs rhs : list (string * Operator)) :
  dict_wf (lhs ++ rhs) ->
  merge_operator_dicts lhs rhs = inr (lhs ++ rhs) /\
  merge_operator_dicts rhs lhs = inr (rhs ++ lhs) /\
  merge_operator_dicts [] (lhs ++ rhs) = inr (lhs ++ rhs).
Proof.
  intros Hwf. unfold merge_operator_dicts. split_and!.
  - by apply (merge_loop_fresh (lhs ++ rhs) []).
  - apply (merge_loop_fresh (rhs ++ lhs) []). unfold dict_wf, dict_keys in *.
    rewrite app_nil_l, fmap_app. rewrite fmap_app in Hwf.
    apply NoDup_app in Hwf as (H1 & H2 & H3). apply NoDup_app.
    split_and!; [done| |done]. intros x Hx Hx'. by apply (H2 x).
  - by apply (merge_loop_fresh ([] ++ lhs ++ rhs) []).
Qed.

Lemma merge_operator_dicts_disjoint_witness :
  dict_wf (registry_A ++ registry_div) /\
  merge_operator_dicts registry_A registry_div = inr (registry_A ++ registry_div) /\
  merge_operator_dicts registry_div registry_A = inr (registry_div ++ registry_A) /\
  merge_operator_dicts [] (registry_A ++ registry_div)
  = inr (registry_A ++ registry_div).
Proof.
  assert (dict_wf (registry_A ++ registry_div)) as Hwf.
  { unfold dict_wf. apply (bool_decide_unpack _). vm_compute. exact I. }
  split; [done|].
  exact (merge_operator_dicts_disjoint registry_A registry_div Hwf).
Defined.

(** X24: a merge that does not raise loses nothing that an input declared:
    a record stored in either input under a key has in the result, under
    that key, a record of the same name in which every flag that was true
    is true and every canonical string of its models occurs. *)
Theorem merge_operator_dicts_keeps_declarations
  (lhs rhs operators : list (string * Operator)) (k : string) (a : Operator) :
  dict_wf lhs -> dict_wf rhs ->
  merge_operator_dicts lhs rhs = inr operators ->
  dict_get k lhs = Some a \/ dict_get k rhs = Some a ->
  exists r,
    dict_get k operators = Some r /\
    SelectiveBuildOperator.name r = SelectiveBuildOperator.name a /\
    (SelectiveBuildOperator.is_root_operator a = true ->
     SelectiveBuildOperator.is_root_operator r = true) /\
    (SelectiveBuildOperator.is_used_for_training a = true ->
     SelectiveBuildOperator.is_used_for_training r = true) /\
    (SelectiveBuildOperator.include_all_overloads a = true ->
     SelectiveBuildOperator.include_all_overloads r = true) /\
    forall m, m ∈ present (SelectiveBuildOperator.models a) ->
      PyTorchModelMetadata.str m
      ∈ PyTorchModelMetadata.str <$> present (SelectiveBuildOperator.models r).
Proof.
  intros Hl Hr Hmerge Hk.
  destruct (merge_operator_dicts_content lhs rhs operators Hl Hr Hmerge)
    as [_ Hget].
  pose proof (merge_operator_dicts_conflict lhs rhs Hl Hr) as Hnames.
  rewrite Hmerge in Hnames. specialize (Hget k). specialize (Hnames k).
  assert (forall x, exists r, Some x = Some r /\
            SelectiveBuildOperator.name r = SelectiveBuildOperator.name x /\
            (SelectiveBuildOperator.is_root_operator x = true ->
             SelectiveBuildOperator.is_root_operator r = true) /\
            (SelectiveBuildOperator.is_used_for_training x = true ->
             SelectiveBuildOperator.is_used_for_training r = true) /\
            (SelectiveBuildOperator.include_all_overloads x = true ->
             SelectiveBuildOperator.include_all_overloads r = true) /\
            forall m, m ∈ present (SelectiveBuildOperator.models x) ->
              PyTorchModelMetadata.str m
              ∈ PyTorchModelMetadata.str <$> present (SelectiveBuildOperator.models r))
    as Hsame.
  { intros x. exists x. split_and!; try done.
    intros m Hm. apply list_elem_of_fmap. by exists m. }
  assert (forall x y, x = a \/ y = a ->
            SelectiveBuildOperator.name x = SelectiveBuildOperator.name y ->
            exists r, Some (combined x y) = Some r /\
            SelectiveBuildOperator.name r = SelectiveBuildOperator.name a /\
            (SelectiveBuildOperator.is_root_operator a = true ->
             SelectiveBuildOperator.is_root_operator r = true) /\
            (SelectiveBuildOperator.is_used_for_training a = true ->
             SelectiveBuildOperator.is_used_for_training r = true) /\
            (SelectiveBuildOperator.include_all_overloads a = true ->
             SelectiveBuildOperator.include_all_overloads r = true) /\
            forall m, m ∈ present (SelectiveBuildOperator.models a) ->
              PyTorchModelMetadata.str m
              ∈ PyTorchModelMetadata.str <$> present (SelectiveBuildOperator.models r))
    as Hboth.
  { intros x y Hxy Hname. exists (combined x y). split; [done|].
    unfold combined. cbn. rewrite present_merge_model_lists.
    destruct Hxy as [->| ->]; split_and!; try done.
    - intros ->. done.
    - intros ->. done.
    - intros ->. done.
    - intros m Hm. apply elem_of_str_dedup_keep_last, list_elem_of_fmap.
      exists m. split; [done|]. apply elem_of_app. by left.
    - intros ->. apply orb_true_r.
    - intros ->. apply orb_true_r.
    - intros ->. apply orb_true_r.
    - intros m Hm. apply elem_of_str_dedup_keep_last, list_elem_of_fmap.
      exists m. split; [done|]. apply elem_of_app. by right. }
  rewrite Hget.
  destruct (dict_get k lhs) as [x|] eqn:Hx, (dict_get k rhs) as [y|] eqn:Hy.
  - apply Hboth; [|by apply Hnames].
    destruct Hk as [[= ->]|[= ->]]; [by left | by right].
  - destruct Hk as [[= ->]|?]; [apply Hsame | done].
  - destruct Hk as [?|[= ->]]; [done | apply Hsame].
  - by destruct Hk.
Qed.

Lemma merge_operator_dicts_keeps_declarations_witness :
  dict_wf registry_A /\ dict_wf registry_B /\
  merge_operator_dicts registry_A registry_B = inr registry_AB /\
  (dict_get "aten::mul" registry_A = Some op_mul_root
   \/ dict_get "aten::mul" registry_B = Some op_mul_root) /\
  exists r,
    dict_get "aten::mul" registry_AB = Some r /\
    SelectiveBuildOperator.name r = SelectiveBuildOperator.name op_mul_root /\
    (SelectiveBuildOperator.is_root_operator op_mul_root = true ->
     SelectiveBuildOperator.is_root_operator r = true) /\
    (SelectiveBuildOperator.is_used_for_training op_mul_root = true ->
     SelectiveBuildOperator.is_used_for_training r = true) /\
    (SelectiveBuildOperator.include_all_overloads op_mul_root = true ->
     SelectiveBuildOperator.include_all_overloads r = true) /\
    forall m, m ∈ present (SelectiveBuildOperator.models op_mul_root) ->
      PyTorchModelMetadata.str m
      ∈ PyTorchModelMetadata.str <$> present (SelectiveBuildOperator.models r).
Proof.
  assert (dict_wf registry_A) as HA.
  { unfold dict_wf. apply (bool_decide_unpack _). vm_compute. exact I. }
  assert (dict_wf registry_B) as HB.
  { unfold dict_wf. apply (bool_decide_unpack _). vm_compute. exact I. }
  assert (merge_operator_dicts registry_A registry_B = inr registry_AB) as HAB
    by (vm_compute; reflexivity).
  assert (dict_get "aten::mul" registry_A = Some op_mul_root
          \/ dict_get "aten::mul" registry_B = Some op_mul_root)
    as Hk by (left; vm_compute; reflexivity).
  do 4 (split; [done|]).
  exact (merge_operator_dicts_keeps_declarations registry_A registry_B registry_AB
           "aten::mul" op_mul_root HA HB HAB Hk).
Defined.

(** X25: if merging two registries does not raise, merging them the other
    way round does not raise either; the two results have the same keys up
    to order, and under each key records that differ at most in the order of
    their models and in which entry stands for a canonical string. *)
Theorem merge_operator_dicts_swap (lhs rhs L : list (string * Operator)) :
  dict_wf lhs -> dict_wf rhs ->
  merge_operator_dicts lhs rhs = inr L ->
  exists R,
    merge_operator_dicts rhs lhs = inr R /\
    dict_keys L ≡ₚ dict_keys R /\
    forall k,
      match dict_get k L, dict_get k R with
      | Some x, Some y => same_but_models_order x y
      | None, None => True
      | _, _ => False
      end.
Proof.
  intros Hl Hr HL.
  pose proof (merge_operator_dicts_conflict lhs rhs Hl Hr) as Hnames.
  rewrite HL in Hnames.
  pose proof (merge_operator_dicts_conflict rhs lhs Hr Hl) as Hc.
  destruct (merge_operator_dicts rhs lhs) as [e|R] eqn:HR.
  { destruct Hc as (_ & k & a & b & Ha & Hb & Hne & _).
    destruct Hne. symmetry. by apply (Hnames k). }
  exists R. split; [done|].
  destruct (merge_operator_dicts_content lhs rhs L Hl Hr HL) as [HkL HgL].
  destruct (merge_operator_dicts_content rhs lhs R Hr Hl HR) as [HkR HgR].
  split.
  - apply NoDup_Permutation.
    + apply merge_loop_success in HL as ->. apply upsert_all_wf, NoDup_nil_2.
    + apply merge_loop_success in HR as ->. apply upsert_all_wf, NoDup_nil_2.
    + intros k. rewrite HkL, HkR, !elem_of_app, !list_elem_of_filter.
      destruct (decide (k ∈ dict_keys lhs)), (decide (k ∈ dict_keys rhs)); tauto.
  - intros k. rewrite HgL, HgR.
    destruct (dict_get k lhs) as [a|] eqn:Ha, (dict_get k rhs) as [b|] eqn:Hb;
      try done; try apply same_but_models_order_refl.
    apply combined_swap. by apply (Hnames k).
Qed.

Lemma merge_operator_dicts_swap_witness :
  dict_wf registry_A /\ dict_wf registry_B /\
  merge_operator_dicts registry_A registry_B = inr registry_AB /\
  exists R,
    merge_operator_dicts registry_B registry_A = inr R /\
    dict_keys registry_AB ≡ₚ dict_keys R /\
    forall k,
      match dict_get k registry_AB, dict_get k R with
      | Some x, Some y => same_but_models_order x y
      | None, None => True
      | _, _ => False
      end.
Proof.
  assert (dict_wf registry_A) as HA.
  { unfold dict_wf. apply (bool_decide_unpack _). vm_compute. exact I. }
  assert (dict_wf registry_B) as HB.
  { unfold dict_wf. apply (bool_decide_unpack _). vm_compute. exact I. }
  assert (merge_operator_dicts registry_A registry_B = inr registry_AB) as HAB
    by (vm_compute; reflexivity).
  do 3 (split; [done|]).
  exact (merge_operator_dicts_swap registry_A registry_B registry_AB HA HB HAB).
Defined.
